(** * adk-rag-agent: the RAG tools over a modelled Vertex AI backend

    A shallow embedding of [rag-agent/tools/*.py] and [rag-agent/config.py].

    - Python [str] is [string], one character of the model for one
      character of the [str]: the functions used here ([in], [startswith],
      [split], [re.match], [re.search], [re.sub]) all work character by
      character.  The characters of the model are the 256 of [ascii]; none
      above 127 is in [[a-zA-Z0-9_-]], as in Python.
    - The session store [tool_context.state] is a [gmap string bool].
    - The backend ([vertexai.init] and the [rag.*] client calls) is a record
      of transition functions over an abstract world; each call either
      returns a value or raises an exception, of which only the text
      ([str(e)]) is kept.
    - Tool code runs in a state-and-exception monad.  Every backend call is
      appended to a log, with the place it was issued from and its outcome;
      the log is bookkeeping only and is never read by the tools.
    - [print] calls are left out: nothing reads what they write. *)

From Stdlib Require Import String Ascii ZArith NArith List Bool Lia DecimalString.
From stdpp Require Import base option gmap strings.

Import ListNotations.
Local Open Scope string_scope.
#[local] Arguments String.append !_ _ / : simpl nomatch.
Local Open Scope Z_scope.

(* ===================================================================== *)
(** ** Strings *)

Module Str.

(** [needle in hay] *)
Fixpoint contains (needle hay : string) : bool :=
  String.prefix needle hay
  || match hay with
     | EmptyString => false
     | String _ rest => contains needle rest
     end.

(** [s.startswith(p)] *)
Definition startswith (p s : string) : bool := String.prefix p s.

(** [s.split(sep)] for a one-character separator: the pieces between the
    separators, never an empty list. *)
Fixpoint split (sep : ascii) (s : string) : list string :=
  match s with
  | EmptyString => [EmptyString]
  | String c rest =>
      if Ascii.eqb c sep then EmptyString :: split sep rest
      else match split sep rest with
           | [] => [String c EmptyString]
           | piece :: pieces => String c piece :: pieces
           end
  end.

(** [l[-1]] on a list of strings ([IndexError] cannot happen on the
    result of [split]; the default is never used there). *)
Definition last_piece (l : list string) : string := List.last l EmptyString.

Fixpoint map (f : ascii -> ascii) (s : string) : string :=
  match s with
  | EmptyString => EmptyString
  | String c rest => String (f c) (map f rest)
  end.

Fixpoint all (p : ascii -> bool) (s : string) : bool :=
  match s with
  | EmptyString => true
  | String c rest => p c && all p rest
  end.

(** The longest prefix of [s] whose characters satisfy [p], and the rest. *)
Fixpoint span (p : ascii -> bool) (s : string) : string * string :=
  match s with
  | EmptyString => (EmptyString, EmptyString)
  | String c rest =>
      if p c then let '(a, b) := span p rest in (String c a, b)
      else (EmptyString, s)
  end.

(** [str(n)] for an [int] *)
Definition of_Z (n : Z) : string := NilZero.string_of_int (Z.to_int n).

End Str.

(* ===================================================================== *)
(** ** Regular expressions, as far as the tools use them *)

Module Re.

Inductive regex : Type :=
| Void
| Eps
| Chr (c : ascii)
| Class (p : ascii -> bool)
| Cat (r1 r2 : regex)
| Alt (r1 r2 : regex)
| Star (r : regex).

(** [r+] *)
Definition Plus (r : regex) : regex := Cat r (Star r).

(** A literal run of characters. *)
Fixpoint Lit (s : string) : regex :=
  match s with
  | EmptyString => Eps
  | String c rest => Cat (Chr c) (Lit rest)
  end.

(** [$] without [re.MULTILINE]: the end of the string, or just before a
    newline that ends the string. *)
Definition Dollar : regex := Alt Eps (Chr "010"%char).

Fixpoint nullable (r : regex) : bool :=
  match r with
  | Void => false
  | Eps => true
  | Chr _ => false
  | Class _ => false
  | Cat r1 r2 => nullable r1 && nullable r2
  | Alt r1 r2 => nullable r1 || nullable r2
  | Star _ => true
  end.

Fixpoint deriv (a : ascii) (r : regex) : regex :=
  match r with
  | Void => Void
  | Eps => Void
  | Chr c => if Ascii.eqb a c then Eps else Void
  | Class p => if p a then Eps else Void
  | Cat r1 r2 =>
      if nullable r1 then Alt (Cat (deriv a r1) r2) (deriv a r2)
      else Cat (deriv a r1) r2
  | Alt r1 r2 => Alt (deriv a r1) (deriv a r2)
  | Star r1 => Cat (deriv a r1) (Star r1)
  end.

(** Does [r] match the whole of [s]? *)
Fixpoint fullmatch (r : regex) (s : string) : bool :=
  match s with
  | EmptyString => nullable r
  | String c rest => fullmatch (deriv c r) rest
  end.

(** The words of a regular expression. *)
Inductive lang : regex -> string -> Prop :=
| L_eps : lang Eps EmptyString
| L_chr c : lang (Chr c) (String c EmptyString)
| L_class p c : p c = true -> lang (Class p) (String c EmptyString)
| L_cat r1 r2 s1 s2 : lang r1 s1 -> lang r2 s2 -> lang (Cat r1 r2) (s1 ++ s2)
| L_alt_l r1 r2 s : lang r1 s -> lang (Alt r1 r2) s
| L_alt_r r1 r2 s : lang r2 s -> lang (Alt r1 r2) s
| L_star_nil r : lang (Star r) EmptyString
| L_star_cons r s1 s2 :
    lang r s1 -> lang (Star r) s2 -> lang (Star r) (s1 ++ s2).

(** [[a-zA-Z0-9_-]] *)
Definition id_char (c : ascii) : bool :=
  let n := N_of_ascii c in
  ((97 <=? n) && (n <=? 122)          (* a-z *)
   || (65 <=? n) && (n <=? 90)        (* A-Z *)
   || (48 <=? n) && (n <=? 57)        (* 0-9 *)
   || (n =? 95)                       (* _ *)
   || (n =? 45))%N.                   (* - *)

(** [[^/]] *)
Definition not_slash (c : ascii) : bool := negb (Ascii.eqb c "/"%char).

(** [re.sub(r"[^a-zA-Z0-9_-]", "_", s)] *)
Definition sub_non_id (s : string) : string :=
  Str.map (fun c => if id_char c then c else "_"%char) s.

(** [re.search(r"/d/([a-zA-Z0-9_-]+)", s)], giving [match.group(1)]: the
    leftmost place where ["/d/"] is followed by an identifier character,
    and from there the longest run of identifier characters. *)
Fixpoint search_d_id (s : string) : option string :=
  let here :=
    if String.prefix "/d/" s then
      match fst (Str.span id_char (String.substring 3 (String.length s - 3) s)) with
      | EmptyString => None
      | id => Some id
      end
    else None in
  match here with
  | Some id => Some id
  | None =>
      match s with
      | EmptyString => None
      | String _ rest => search_d_id rest
      end
  end.

End Re.

(* ===================================================================== *)
(** ** Python values and the result dictionaries *)

#[warnings="-register-all"]
Inductive PyVal : Type :=
| VNone
| VBool (b : bool)
| VInt (n : Z)
| VFloat (bits : Z)                       (* a double, by its IEEE-754 bits *)
| VStr (s : string)
| VList (l : list PyVal)
| VDict (d : list (string * PyVal)).

(** A [dict] with string keys, in insertion order. *)
Abbreviation PyDict := (list (string * PyVal)).

Module Dict.

(** [d.get(k)] / [d[k]] *)
Fixpoint get (k : string) (d : PyDict) : option PyVal :=
  match d with
  | [] => None
  | (k', v) :: rest => if String.eqb k k' then Some v else get k rest
  end.

(** [d[k] = v]: overwrite in place, or append a new key. *)
Fixpoint set (k : string) (v : PyVal) (d : PyDict) : PyDict :=
  match d with
  | [] => [(k, v)]
  | (k', v') :: rest =>
      if String.eqb k k' then (k, v) :: rest else (k', v') :: set k v rest
  end.

(** Truth value of a Python object, as [if x:] and [not x] take it. *)
Definition truthy (v : PyVal) : bool :=
  match v with
  | VNone => false
  | VBool b => b
  | VInt n => negb (n =? 0)
  | VFloat bits => negb ((bits =? 0) || (bits =? 2 ^ 63))
  | VStr s => negb (String.eqb s "")
  | VList l => match l with [] => false | _ => true end
  | VDict d => match d with [] => false | _ => true end
  end.

End Dict.

Definition strs (l : list string) : PyVal := VList (List.map VStr l).

(* ===================================================================== *)
(** ** Configuration ([config.py]) *)

Definition DEFAULT_CHUNK_SIZE : Z := 512.
Definition DEFAULT_CHUNK_OVERLAP : Z := 100.
Definition DEFAULT_TOP_K : Z := 3.
(** 0.5 as a double *)
Definition DEFAULT_DISTANCE_THRESHOLD : PyVal := VFloat 0x3FE0000000000000.
Definition DEFAULT_EMBEDDING_MODEL : string :=
  "publishers/google/models/text-embedding-005".
Definition DEFAULT_EMBEDDING_REQUESTS_PER_MIN : Z := 1000.

(** [PROJECT_ID] and [LOCATION] come from the environment; these are the
    values [config.py] falls back to. *)
Definition DEFAULT_PROJECT_ID : string := "adk-vertexai-rag".
Definition DEFAULT_LOCATION : string := "us-central1".

(* ===================================================================== *)
(** ** The backend *)

(** What the client hands back.  An attribute the tools test with
    [hasattr] is an [option]: [None] is an object without the attribute. *)
Record RagCorpus : Type := {
  rc_name : string;
  rc_display_name : option string;
  rc_create_time : option string;
  rc_update_time : option string;
}.

Record RagFile : Type := {
  rf_name : option string;
  rf_source_uri : option string;
  rf_display_name : option string;
  rf_create_time : option string;
  rf_update_time : option string;
  rf_mime_type : option string;
  rf_state : option string;
}.

Record Context : Type := {
  ctx_source_uri : option string;
  ctx_source_display_name : option string;
  ctx_text : option string;
  ctx_score : option Z;                   (* bits of the double *)
}.

(** [response.contexts]: [None] when the attribute is missing or falsy,
    otherwise the list [response.contexts.contexts]. *)
Record RetrievalResponse : Type := {
  resp_contexts : option (list Context);
}.

Record ImportResult : Type := {
  imported_rag_files_count : Z;
}.

(** The text of a raised exception. *)
Abbreviation Exc := string.

(** The calls of the client.  A lazily paged listing is taken as a whole:
    a failure while paging is a failure of the call. *)
Inductive Call : Type :=
| CInit (project location : string)
| CListCorpora
| CCreateCorpus (display_name embedding_model : string)
| CDeleteCorpus (name : string)
| CGetCorpus (name : string)
| CListFiles (name : string)
| CImportFiles (name : string) (paths : list string)
               (chunk_size chunk_overlap requests_per_min : Z)
| CDeleteFile (name : string)
| CRetrievalQuery (corpus text : string) (top_k : Z) (threshold : PyVal).

Record Backend (W : Type) : Type := {
  vertexai_init : string -> string -> W -> (Exc + unit) * W;
  rag_list_corpora : W -> (Exc + list RagCorpus) * W;
  rag_create_corpus : string -> string -> W -> (Exc + RagCorpus) * W;
  rag_delete_corpus : string -> W -> (Exc + unit) * W;
  rag_get_corpus : string -> W -> (Exc + RagCorpus) * W;
  rag_list_files : string -> W -> (Exc + list RagFile) * W;
  rag_import_files :
    string -> list string -> Z -> Z -> Z -> W -> (Exc + ImportResult) * W;
  rag_delete_file : string -> W -> (Exc + unit) * W;
  rag_retrieval_query :
    string -> string -> Z -> PyVal -> W -> (Exc + RetrievalResponse) * W;
}.

Arguments vertexai_init {W}.
Arguments rag_list_corpora {W}.
Arguments rag_create_corpus {W}.
Arguments rag_delete_corpus {W}.
Arguments rag_get_corpus {W}.
Arguments rag_list_files {W}.
Arguments rag_import_files {W}.
Arguments rag_delete_file {W}.
Arguments rag_retrieval_query {W}.

(** Where a call was issued: in the body of a tool, or in one of the
    helpers of [utils.py], or in the best-effort block of
    [get_corpus_info]. *)
Inductive Site : Type :=
| AtTool
| AtResolver          (* get_corpus_resource_name *)
| AtExists            (* check_corpus_exists *)
| AtCreate            (* create_corpus_if_not_exists *)
| AtDetails.          (* get_corpus_info, corpus details *)

Record Event : Type := {
  ev_site : Site;
  ev_call : Call;
  ev_raised : option Exc;
}.

(** The state a tool runs in. *)
Record St (W : Type) : Type := {
  world : W;
  session : gmap string bool;             (* tool_context.state *)
  log : list Event;                       (* oldest first *)
}.

Arguments world {W}.
Arguments session {W}.
Arguments log {W}.
Arguments Build_St {W}.

(* ===================================================================== *)
(** ** State and exceptions *)

Definition M (W A : Type) : Type := St W -> (Exc + A) * St W.

#[global] Instance M_ret {W} : MRet (M W) := fun A a st => (inr a, st).

#[global] Instance M_bind {W} : MBind (M W) := fun A B k m st =>
  match m st with
  | (inl e, st') => (inl e, st')
  | (inr a, st') => k a st'
  end.

Definition raise {W A} (e : Exc) : M W A := fun st => (inl e, st).

(** [try: m  except Exception as e: h e] *)
Definition try_except {W A} (m : M W A) (h : Exc -> M W A) : M W A :=
  fun st =>
    match m st with
    | (inl e, st') => h e st'
    | (inr a, st') => (inr a, st')
    end.

(** [tool_context.state.get(key)], with [None] for a missing key *)
Definition state_get {W} (key : string) : M W (option bool) :=
  fun st => (inr (session st !! key), st).

(** [key in tool_context.state] *)
Definition state_has {W} (key : string) : M W bool :=
  fun st => (inr (bool_decide (is_Some (session st !! key))), st).

(** [tool_context.state[key] = b] *)
Definition state_set {W} (key : string) (b : bool) : M W unit :=
  fun st =>
    (inr tt, {| world := world st;
                session := <[key := b]> (session st);
                log := log st |}).

(** One call of the client: run it on the world, log it, and raise what it
    raised. *)
Definition call {W A} (site : Site) (c : Call)
    (f : W -> (Exc + A) * W) : M W A :=
  fun st =>
    let '(r, w') := f (world st) in
    (r, {| world := w';
           session := session st;
           log := log st ++
                  [{| ev_site := site; ev_call := c;
                      ev_raised := match r with inl e => Some e | inr _ => None end |}] |}).

(** [obj.attr] on an object that may lack the attribute *)
Definition getattr {W A} (cls attr : string) (o : option A) : M W A :=
  match o with
  | Some a => mret a
  | None => raise ("'" ++ cls ++ "' object has no attribute '" ++ attr ++ "'")
  end.

(** [d[k]], raising [KeyError] for a missing key *)
Definition getitem {W} (k : string) (d : PyDict) : M W PyVal :=
  match Dict.get k d with
  | Some v => mret v
  | None => raise ("'" ++ k ++ "'")
  end.

(** [d.get(k, default)] *)
Definition get_default (k : string) (default : PyVal) (d : PyDict) : PyVal :=
  match Dict.get k d with
  | Some v => v
  | None => default
  end.

(** [x if hasattr(o, attr) else ""] *)
Definition attr_or_empty (o : option string) : PyVal :=
  VStr (match o with Some s => s | None => "" end).

(* ===================================================================== *)
(** ** [tools/utils.py] *)

Section Tools.

Context {W : Type} (be : Backend W).
Variables PROJECT_ID LOCATION : string.

(** [r"^projects/[^/]+/locations/[^/]+/ragCorpora/[^/]+$"] *)
Definition CANONICAL : Re.regex :=
  Re.Cat (Re.Lit "projects/")
    (Re.Cat (Re.Plus (Re.Class Re.not_slash))
       (Re.Cat (Re.Lit "/locations/")
          (Re.Cat (Re.Plus (Re.Class Re.not_slash))
             (Re.Cat (Re.Lit "/ragCorpora/")
                (Re.Cat (Re.Plus (Re.Class Re.not_slash)) Re.Dollar))))).

(** [f"corpus_exists_{corpus_name}"] *)
Definition state_key (corpus_name : string) : string :=
  "corpus_exists_" ++ corpus_name.

Definition init (site : Site) : M W unit :=
  call site (CInit PROJECT_ID LOCATION) (vertexai_init be PROJECT_ID LOCATION).

(** The loop of [get_corpus_resource_name]: the name of the first corpus
    that has a display name equal to [corpus_name]. *)
Fixpoint find_display_name (corpus_name : string) (corpora : list RagCorpus)
    : option string :=
  match corpora with
  | [] => None
  | corpus :: rest =>
      match rc_display_name corpus with
      | Some d =>
          if String.eqb d corpus_name then Some (rc_name corpus)
          else find_display_name corpus_name rest
      | None => find_display_name corpus_name rest
      end
  end.

(** The second step of [get_corpus_resource_name], its [try] block: look
    the name up among the display names; any failure counts as no match. *)
Definition lookup_display_name (corpus_name : string) : M W (option string) :=
  try_except
    (init AtResolver;;
     corpora ← call AtResolver CListCorpora (rag_list_corpora be);
     mret (find_display_name corpus_name corpora))
    (fun _ => mret None).

(** The last step: the identifier the path is built from. *)
Definition last_segment (corpus_name : string) : string :=
  if Str.contains "/" corpus_name
  then Str.last_piece (Str.split "/"%char corpus_name)
  else corpus_name.

Definition fallback_corpus_id (corpus_name : string) : string :=
  Re.sub_non_id (last_segment corpus_name).

Definition get_corpus_resource_name (corpus_name : string) : M W string :=
  if Re.fullmatch CANONICAL corpus_name then mret corpus_name
  else
    found ← lookup_display_name corpus_name;
    match found with
    | Some name => mret name
    | None =>
        mret ("projects/" ++ PROJECT_ID ++ "/locations/" ++ LOCATION
              ++ "/ragCorpora/" ++ fallback_corpus_id corpus_name)
    end.

(** The loop of [check_corpus_exists].  [a or b] evaluates [b] only when
    [a] is false, so a corpus matched by its name is not asked for its
    display name. *)
Fixpoint exists_loop (corpus_name corpus_resource_name : string)
    (corpora : list RagCorpus) : M W bool :=
  match corpora with
  | [] => mret false
  | corpus :: rest =>
      hit ← (if String.eqb (rc_name corpus) corpus_resource_name then mret true
             else d ← getattr "RagCorpus" "display_name" (rc_display_name corpus);
                  mret (String.eqb d corpus_name));
      if (hit : bool) then
        state_set (state_key corpus_name) true;;
        mret true
      else exists_loop corpus_name corpus_resource_name rest
  end.

Definition check_corpus_exists (corpus_name : string) : M W bool :=
  cached ← state_get (state_key corpus_name);
  if default false cached then mret true
  else
    try_except
      (init AtExists;;
       corpus_resource_name ← get_corpus_resource_name corpus_name;
       corpora ← call AtExists CListCorpora (rag_list_corpora be);
       exists_loop corpus_name corpus_resource_name corpora)
      (fun _ => mret false).

Definition create_corpus_if_not_exists (corpus_name : string) : M W PyDict :=
  exists_ ← check_corpus_exists corpus_name;
  if (exists_ : bool) then
    mret [("success", VBool true);
          ("status", VStr "success");
          ("message", VStr ("Corpus '" ++ corpus_name ++ "' already exists"));
          ("corpus_name", VStr corpus_name);
          ("was_created", VBool false)]
  else
    try_except
      (init AtCreate;;
       let display_name := Re.sub_non_id corpus_name in
       rag_corpus ← call AtCreate
                      (CCreateCorpus display_name DEFAULT_EMBEDDING_MODEL)
                      (rag_create_corpus be display_name DEFAULT_EMBEDDING_MODEL);
       state_set (state_key corpus_name) true;;
       d ← getattr "RagCorpus" "display_name" (rc_display_name rag_corpus);
       mret [("success", VBool true);
             ("status", VStr "success");
             ("message", VStr ("Successfully created corpus '" ++ corpus_name ++ "'"));
             ("corpus_name", VStr (rc_name rag_corpus));
             ("display_name", VStr d);
             ("was_created", VBool true)])
      (fun e =>
         mret [("success", VBool false);
               ("status", VStr "error");
               ("message", VStr ("Error creating corpus: " ++ e));
               ("corpus_name", VStr corpus_name);
               ("was_created", VBool false)]).

(** [f"{v}"] for the values the tools format: the message of a result
    dictionary, always a [str]; the other scalars are given for
    completeness, containers and floats are never formatted. *)
Definition str_of (v : PyVal) : string :=
  match v with
  | VStr s => s
  | VNone => "None"
  | VBool true => "True"
  | VBool false => "False"
  | VInt n => Str.of_Z n
  | _ => ""
  end.

(* ------------------------------------------------------------------- *)
(** *** [tools/rag_query.py] *)

Definition context_dict (ctx_group : Context) : PyVal :=
  VDict [("source_uri", attr_or_empty (ctx_source_uri ctx_group));
         ("source_name", attr_or_empty (ctx_source_display_name ctx_group));
         ("text", attr_or_empty (ctx_text ctx_group));
         ("score", VFloat (default 0 (ctx_score ctx_group)))].

Definition rag_query (corpus_name query : string) : M W PyDict :=
  try_except
    (init AtTool;;
     corpus_result ← create_corpus_if_not_exists corpus_name;
     success ← getitem "success" corpus_result;
     if negb (Dict.truthy success) then
       message ← getitem "message" corpus_result;
       mret [("status", VStr "error");
             ("message", VStr ("Unable to access or create corpus '" ++ corpus_name
                               ++ "': " ++ str_of message));
             ("query", VStr query);
             ("corpus_name", VStr corpus_name)]
     else if Dict.truthy (get_default "was_created" (VBool false) corpus_result) then
       mret [("status", VStr "warning");
             ("message", VStr ("Created a new corpus '" ++ corpus_name
                               ++ "', but it doesn't contain any data yet. Please add data to the corpus before querying."));
             ("query", VStr query);
             ("corpus_name", VStr corpus_name);
             ("results", VList []);
             ("results_count", VInt 0)]
     else
       corpus_resource_name ← get_corpus_resource_name corpus_name;
       response ← call AtTool
                    (CRetrievalQuery corpus_resource_name query DEFAULT_TOP_K
                       DEFAULT_DISTANCE_THRESHOLD)
                    (rag_retrieval_query be corpus_resource_name query DEFAULT_TOP_K
                       DEFAULT_DISTANCE_THRESHOLD);
       let results :=
         match resp_contexts response with
         | Some contexts => List.map context_dict contexts
         | None => []
         end in
       match results with
       | [] =>
           mret [("status", VStr "warning");
                 ("message", VStr ("No results found in corpus '" ++ corpus_name
                                   ++ "' for query: '" ++ query ++ "'"));
                 ("query", VStr query);
                 ("results", VList []);
                 ("results_count", VInt 0)]
       | _ =>
           mret [("status", VStr "success");
                 ("message", VStr ("Successfully queried corpus '" ++ corpus_name ++ "'"));
                 ("query", VStr query);
                 ("results", VList results);
                 ("results_count", VInt (Z.of_nat (List.length results)))]
       end)
    (fun e =>
       mret [("status", VStr "error");
             ("message", VStr ("Error querying corpus: " ++ e));
             ("query", VStr query);
             ("corpus_name", VStr corpus_name)]).

(* ------------------------------------------------------------------- *)
(** *** [tools/delete_corpus.py] *)

Definition delete_corpus (corpus_name : string) (confirm : bool) : M W PyDict :=
  try_except
    (if negb confirm then
       mret [("status", VStr "error");
             ("message", VStr "Deletion not confirmed. Please set confirm=True to delete the corpus.");
             ("corpus_name", VStr corpus_name)]
     else
       init AtTool;;
       exists_ ← check_corpus_exists corpus_name;
       if negb exists_ then
         mret [("status", VStr "error");
               ("message", VStr ("Corpus '" ++ corpus_name
                                 ++ "' does not exist, so it cannot be deleted."));
               ("corpus_name", VStr corpus_name)]
       else
         corpus_resource_name ← get_corpus_resource_name corpus_name;
         call AtTool (CDeleteCorpus corpus_resource_name)
           (rag_delete_corpus be corpus_resource_name);;
         present ← state_has (state_key corpus_name);
         (if (present : bool) then state_set (state_key corpus_name) false
          else mret tt);;
         mret [("status", VStr "success");
               ("message", VStr ("Successfully deleted corpus '" ++ corpus_name ++ "'"));
               ("corpus_name", VStr corpus_name)])
    (fun e =>
       mret [("status", VStr "error");
             ("message", VStr ("Error deleting corpus: " ++ e));
             ("corpus_name", VStr corpus_name)]).

(* ------------------------------------------------------------------- *)
(** *** [tools/delete_document.py] *)

Definition delete_document (corpus_name document_id : string) : M W PyDict :=
  try_except
    (init AtTool;;
     exists_ ← check_corpus_exists corpus_name;
     if negb exists_ then
       mret [("status", VStr "error");
             ("message", VStr ("Corpus '" ++ corpus_name
                               ++ "' does not exist, so the document cannot be deleted."));
             ("corpus_name", VStr corpus_name);
             ("document_id", VStr document_id)]
     else
       corpus_resource_name ← get_corpus_resource_name corpus_name;
       let document_resource_name :=
         corpus_resource_name ++ "/ragFiles/" ++ document_id in
       call AtTool (CDeleteFile document_resource_name)
         (rag_delete_file be document_resource_name);;
       mret [("status", VStr "success");
             ("message", VStr ("Successfully deleted document '" ++ document_id
                               ++ "' from corpus '" ++ corpus_name ++ "'"));
             ("corpus_name", VStr corpus_name);
             ("document_id", VStr document_id)])
    (fun e =>
       mret [("status", VStr "error");
             ("message", VStr ("Error deleting document: " ++ e));
             ("corpus_name", VStr corpus_name);
             ("document_id", VStr document_id)]).

(* ------------------------------------------------------------------- *)
(** *** [tools/get_corpus_info.py] *)

Definition file_info (file : RagFile) : PyVal :=
  VDict [("file_id",
          VStr (match rf_name file with
                | Some n => Str.last_piece (Str.split "/"%char n)
                | None => ""
                end));
         ("source_uri", attr_or_empty (rf_source_uri file));
         ("display_name", attr_or_empty (rf_display_name file));
         ("create_time", attr_or_empty (rf_create_time file));
         ("update_time", attr_or_empty (rf_update_time file));
         ("mime_type", attr_or_empty (rf_mime_type file));
         ("state", attr_or_empty (rf_state file))].

Definition get_corpus_info (corpus_name : string) : M W PyDict :=
  try_except
    (init AtTool;;
     exists_ ← check_corpus_exists corpus_name;
     if negb exists_ then
       mret [("status", VStr "error");
             ("message", VStr ("Corpus '" ++ corpus_name ++ "' does not exist"));
             ("corpus_name", VStr corpus_name)]
     else
       corpus_resource_name ← get_corpus_resource_name corpus_name;
       corpus_display_name ←
         try_except
           (corpus ← call AtDetails (CGetCorpus corpus_resource_name)
                       (rag_get_corpus be corpus_resource_name);
            mret (match rc_display_name corpus with
                  | Some d => if negb (String.eqb d "") then d else corpus_name
                  | None => corpus_name
                  end))
           (fun _ => mret corpus_name);
       try_except
         (files ← call AtTool (CListFiles corpus_resource_name)
                    (rag_list_files be corpus_resource_name);
          let file_details := List.map file_info files in
          mret [("status", VStr "success");
                ("message", VStr ("Successfully retrieved information for corpus '"
                                  ++ corpus_name ++ "'"));
                ("corpus_name", VStr corpus_name);
                ("corpus_resource_name", VStr corpus_resource_name);
                ("display_name", VStr corpus_display_name);
                ("stats", VDict [("file_count",
                                  VInt (Z.of_nat (List.length file_details)))]);
                ("files", VList file_details)])
         (fun files_error =>
            mret [("status", VStr "error");
                  ("message", VStr ("Error retrieving files for corpus '" ++ corpus_name
                                    ++ "': " ++ files_error));
                  ("corpus_name", VStr corpus_name);
                  ("corpus_resource_name", VStr corpus_resource_name)]))
    (fun e =>
       mret [("status", VStr "error");
             ("message", VStr ("Error retrieving corpus information: " ++ e));
             ("corpus_name", VStr corpus_name)]).

(* ------------------------------------------------------------------- *)
(** *** [tools/list_corpora.py] *)

Fixpoint corpus_infos (corpora : list RagCorpus) : M W (list PyVal) :=
  match corpora with
  | [] => mret []
  | corpus :: rest =>
      d ← getattr "RagCorpus" "display_name" (rc_display_name corpus);
      let corpus_data :=
        VDict [("resource_name", VStr (rc_name corpus));
               ("display_name", VStr d);
               ("create_time", attr_or_empty (rc_create_time corpus));
               ("update_time", attr_or_empty (rc_update_time corpus))] in
      infos ← corpus_infos rest;
      mret (corpus_data :: infos)
  end.

Definition list_corpora : M W PyDict :=
  try_except
    (init AtTool;;
     corpora ← call AtTool CListCorpora (rag_list_corpora be);
     corpus_info ← corpus_infos corpora;
     mret [("status", VStr "success");
           ("message", VStr ("Found " ++ Str.of_Z (Z.of_nat (List.length corpus_info))
                             ++ " corpus/corpora"));
           ("corpora", VList corpus_info);
           ("count", VInt (Z.of_nat (List.length corpus_info)));
           ("note", VStr "Use the 'resource_name' field (not 'display_name') when referencing corpora in other tools")])
    (fun e =>
       mret [("status", VStr "error");
             ("message", VStr ("Error listing corpora: " ++ e))]).

(* ------------------------------------------------------------------- *)
(** *** [tools/add_data.py] *)

(** What the validation loop has gathered. *)
Record Sorted : Type := {
  validated_paths : list string;
  invalid_paths : list string;
  conversions : PyDict;
}.

(** One turn of the loop over [paths]. *)
Definition sort_path (acc : Sorted) (path : string) : Sorted :=
  if Str.contains "drive.google.com/file/d/" path then
    {| validated_paths := validated_paths acc ++ [path];
       invalid_paths := invalid_paths acc;
       conversions := conversions acc |}
  else if Str.startswith "gs://" path then
    {| validated_paths := validated_paths acc ++ [path];
       invalid_paths := invalid_paths acc;
       conversions := conversions acc |}
  else if Str.contains "docs.google.com" path then
    match Re.search_d_id path with
    | Some file_id =>
        let drive_url := "https://drive.google.com/file/d/" ++ file_id ++ "/view" in
        {| validated_paths := validated_paths acc ++ [drive_url];
           invalid_paths := invalid_paths acc;
           conversions := Dict.set path (VStr drive_url) (conversions acc) |}
    | None =>
        {| validated_paths := validated_paths acc;
           invalid_paths := invalid_paths acc ++ [path];
           conversions := conversions acc |}
    end
  else
    {| validated_paths := validated_paths acc;
       invalid_paths := invalid_paths acc ++ [path];
       conversions := conversions acc |}.

Definition sort_paths (paths : list string) : Sorted :=
  List.fold_left sort_path paths
    {| validated_paths := []; invalid_paths := []; conversions := [] |}.

Definition add_data (corpus_name : string) (paths : list string) : M W PyDict :=
  try_except
    (init AtTool;;
     let sorted := sort_paths paths in
     match validated_paths sorted with
     | [] =>
         mret [("status", VStr "error");
               ("message", VStr "No valid paths provided. Please provide Google Drive URLs, Google Docs/Sheets/Slides URLs, or GCS paths.");
               ("invalid_paths", strs (invalid_paths sorted))]
     | _ =>
         corpus_result ← create_corpus_if_not_exists corpus_name;
         success ← getitem "success" corpus_result;
         if negb (Dict.truthy success) then
           message ← getitem "message" corpus_result;
           mret [("status", VStr "error");
                 ("message", VStr ("Unable to access or create corpus '" ++ corpus_name
                                   ++ "': " ++ str_of message));
                 ("corpus_name", VStr corpus_name);
                 ("paths", strs paths)]
         else
           let corpus_created := get_default "was_created" (VBool false) corpus_result in
           corpus_resource_name ← get_corpus_resource_name corpus_name;
           import_result ←
             call AtTool
               (CImportFiles corpus_resource_name (validated_paths sorted)
                  DEFAULT_CHUNK_SIZE DEFAULT_CHUNK_OVERLAP
                  DEFAULT_EMBEDDING_REQUESTS_PER_MIN)
               (rag_import_files be corpus_resource_name (validated_paths sorted)
                  DEFAULT_CHUNK_SIZE DEFAULT_CHUNK_OVERLAP
                  DEFAULT_EMBEDDING_REQUESTS_PER_MIN);
           let creation_msg :=
             if Dict.truthy corpus_created
             then "Created new corpus '" ++ corpus_name ++ "' and "
             else "" in
           let conversion_msg :=
             if Dict.truthy (VDict (conversions sorted))
             then " (Converted Google Docs URLs to Drive format)"
             else "" in
           mret [("status", VStr "success");
                 ("message", VStr (creation_msg ++ "Successfully added "
                                   ++ Str.of_Z (imported_rag_files_count import_result)
                                   ++ " file(s) to corpus '" ++ corpus_name ++ "'"
                                   ++ conversion_msg));
                 ("corpus_name", VStr corpus_name);
                 ("corpus_created", corpus_created);
                 ("files_added", VInt (imported_rag_files_count import_result));
                 ("paths", strs (validated_paths sorted));
                 ("invalid_paths", strs (invalid_paths sorted));
                 ("conversions", VDict (conversions sorted))]
     end)
    (fun e =>
       mret [("status", VStr "error");
             ("message", VStr ("Error adding data to corpus: " ++ e));
             ("corpus_name", VStr corpus_name);
             ("paths", strs paths)]).

(* ------------------------------------------------------------------- *)
(** *** [tools/__init__.py]: the public tools *)

Inductive Tool : Type :=
| RagQuery (corpus_name query : string)
| AddData (corpus_name : string) (paths : list string)
| DeleteCorpus (corpus_name : string) (confirm : bool)
| DeleteDocument (corpus_name document_id : string)
| GetCorpusInfo (corpus_name : string)
| ListCorpora.

Definition run_tool (t : Tool) : M W PyDict :=
  match t with
  | RagQuery corpus_name query => rag_query corpus_name query
  | AddData corpus_name paths => add_data corpus_name paths
  | DeleteCorpus corpus_name confirm => delete_corpus corpus_name confirm
  | DeleteDocument corpus_name document_id => delete_document corpus_name document_id
  | GetCorpusInfo corpus_name => get_corpus_info corpus_name
  | ListCorpora => list_corpora
  end.

End Tools.

(* ===================================================================== *)
(** ** Concrete backends, to run the tools on *)

Module Service.

(** An in-memory service: the world is the list of corpora. *)
Definition new_corpus (display_name : string) (w : list RagCorpus) : RagCorpus :=
  {| rc_name := "projects/demo/locations/us-central1/ragCorpora/"
                ++ Str.of_Z (Z.of_nat (List.length w));
     rc_display_name := Some display_name;
     rc_create_time := Some "2025-01-01";
     rc_update_time := None |}.

Definition has_name (name : string) (c : RagCorpus) : bool :=
  String.eqb (rc_name c) name.

Definition memory : Backend (list RagCorpus) :=
  {| vertexai_init := fun _ _ w => (inr tt, w);
     rag_list_corpora := fun w => (inr w, w);
     rag_create_corpus := fun d _ (w : list RagCorpus) =>
       (inr (new_corpus d w), (w ++ [new_corpus d w])%list);
     rag_delete_corpus := fun name w =>
       if List.existsb (has_name name) w
       then (inr tt, List.filter (fun c => negb (has_name name c)) w)
       else (inl "404 corpus not found", w);
     rag_get_corpus := fun name w =>
       match List.find (has_name name) w with
       | Some c => (inr c, w)
       | None => (inl "404 corpus not found", w)
       end;
     rag_list_files := fun _ w => (inr [], w);
     rag_import_files := fun _ paths _ _ _ w =>
       (inr {| imported_rag_files_count := Z.of_nat (List.length paths) |}, w);
     rag_delete_file := fun _ w => (inr tt, w);
     rag_retrieval_query := fun _ _ _ _ w => (inr {| resp_contexts := None |}, w) |}.

(** The same service while listing is broken: [list_corpora] raises. *)
Definition no_listing : Backend (list RagCorpus) :=
  {| vertexai_init := vertexai_init memory;
     rag_list_corpora := fun w => (inl "503 listing unavailable", w);
     rag_create_corpus := rag_create_corpus memory;
     rag_delete_corpus := rag_delete_corpus memory;
     rag_get_corpus := rag_get_corpus memory;
     rag_list_files := rag_list_files memory;
     rag_import_files := rag_import_files memory;
     rag_delete_file := rag_delete_file memory;
     rag_retrieval_query := rag_retrieval_query memory |}.

(** The same service with a client that cannot be initialised. *)
Definition no_init : Backend (list RagCorpus) :=
  {| vertexai_init := fun _ _ w => (inl "Unsupported region for Vertex AI", w);
     rag_list_corpora := rag_list_corpora memory;
     rag_create_corpus := rag_create_corpus memory;
     rag_delete_corpus := rag_delete_corpus memory;
     rag_get_corpus := rag_get_corpus memory;
     rag_list_files := rag_list_files memory;
     rag_import_files := rag_import_files memory;
     rag_delete_file := rag_delete_file memory;
     rag_retrieval_query := rag_retrieval_query memory |}.

(** A fresh session over a given world. *)
Definition fresh {W} (w : W) : St W :=
  {| world := w; session := ∅; log := [] |}.

Definition docs : RagCorpus :=
  {| rc_name := "projects/demo/locations/us-central1/ragCorpora/7";
     rc_display_name := Some "docs";
     rc_create_time := None;
     rc_update_time := None |}.

End Service.

(* ===================================================================== *)
(** ** The words of the specification *)

Module Spec.

(** One [{...}] of a resource path: not empty, no ['/']. *)
Definition segment (x : string) : Prop :=
  x <> "" /\ Str.all Re.not_slash x = true.

(** [projects/{P}/locations/{L}/ragCorpora/{ID}] *)
Definition canonical_path (P L ID : string) : string :=
  "projects/" ++ P ++ "/locations/" ++ L ++ "/ragCorpora/" ++ ID.

Definition canonical (s : string) : Prop :=
  exists P L ID, segment P /\ segment L /\ segment ID /\ s = canonical_path P L ID.

(** [e] occurs in [m]. *)
Definition embeds (m e : string) : Prop :=
  exists before after, m = before ++ e ++ after.

(** The result envelope: a status out of three, and a message. *)
Definition statuses : list string := ["success"; "warning"; "error"].

Definition envelope (d : PyDict) : Prop :=
  exists status message,
    Dict.get "status" d = Some (VStr status) /\ In status statuses
    /\ Dict.get "message" d = Some (VStr message).

(** [d] is an error result whose message carries the text [e]. *)
Definition reports (d : PyDict) (e : Exc) : Prop :=
  Dict.get "status" d = Some (VStr "error")
  /\ exists message, Dict.get "message" d = Some (VStr message) /\ embeds message e.

(** The three results of [create_corpus_if_not_exists]. *)
Definition already_exists (corpus_name : string) : PyDict :=
  [("success", VBool true);
   ("status", VStr "success");
   ("message", VStr ("Corpus '" ++ corpus_name ++ "' already exists"));
   ("corpus_name", VStr corpus_name);
   ("was_created", VBool false)].

Definition created (corpus_name : string) (name display_name : string) : PyDict :=
  [("success", VBool true);
   ("status", VStr "success");
   ("message", VStr ("Successfully created corpus '" ++ corpus_name ++ "'"));
   ("corpus_name", VStr name);
   ("display_name", VStr display_name);
   ("was_created", VBool true)].

Definition create_error (corpus_name : string) (e : Exc) : PyDict :=
  [("success", VBool false);
   ("status", VStr "error");
   ("message", VStr ("Error creating corpus: " ++ e));
   ("corpus_name", VStr corpus_name);
   ("was_created", VBool false)].

(** What a tool does with the error result of the creation step. *)
Definition refusal (corpus_name : string) (more : PyDict) (e : Exc) : PyDict :=
  ("status", VStr "error")
  :: ("message", VStr ("Unable to access or create corpus '" ++ corpus_name
                       ++ "': " ++ "Error creating corpus: " ++ e))
  :: more.

(** The events a run added to the log. *)
Definition added {W} (st st' : St W) (evs : list Event) : Prop :=
  log st' = (log st ++ evs)%list.

(** The exception an event stands for when the call was issued by a tool
    body or by the creation step; the lookups of the resolver and of the
    existence check, and the best-effort fetch of the corpus details, are
    made under an [except] that drops what they raise. *)
Definition surfaced (ev : Event) : option Exc :=
  match ev_site ev with
  | AtTool | AtCreate => ev_raised ev
  | AtResolver | AtExists | AtDetails => None
  end.

(** A path that the loop of [add_data] accepts, in the words of the
    specification: a direct Drive link, a storage URI, or a Docs link
    with a document id in it. *)
Definition validates (path : string) : bool :=
  Str.contains "drive.google.com/file/d/" path
  || Str.startswith "gs://" path
  || (Str.contains "docs.google.com" path
      && match Re.search_d_id path with Some _ => true | None => false end).

(** The example of the specification for [add_data]. *)
Definition example_doc : string := "https://docs.google.com/document/d/ABC123/edit".
Definition example_drive : string := "https://drive.google.com/file/d/ABC123/view".
Definition example_paths : list string := [example_doc; "gs://bucket/x"; "not-a-path"].

(** [name] resolves to itself. *)
Definition fixed_point {W} (be : Backend W) (PROJECT_ID LOCATION : string)
    (st : St W) (name : string) : Prop :=
  fst (get_corpus_resource_name be PROJECT_ID LOCATION name st) = inr name.

(** Every exception raised by the backend during a run of a tool shows in
    the result of the tool. *)
Definition reports_every_raise {W} (be : Backend W) (PROJECT_ID LOCATION : string)
    (t : Tool) (st : St W) : Prop :=
  forall d st' evs,
    run_tool be PROJECT_ID LOCATION t st = (inr d, st') ->
    added st st' evs ->
    forall ev e, In ev evs -> ev_raised ev = Some e -> reports d e.

Definition is_retrieval (c : Call) : bool :=
  match c with CRetrievalQuery _ _ _ _ => true | _ => false end.

(** The last character of a string. *)
Fixpoint last_char (s : string) : option ascii :=
  match s with
  | EmptyString => None
  | String c EmptyString => Some c
  | String _ rest => last_char rest
  end.

End Spec.

(* ===================================================================== *)
(** ** What a computation may log and raise *)

Module Logic.
Import Spec.

(** Whatever [m] logs satisfies [P]. *)
Definition emits {W A} (P : Event -> Prop) (m : M W A) : Prop :=
  forall st, exists evs, added st (snd (m st)) evs /\ Forall P evs.

(** [m] leaves the session store alone. *)
Definition keeps_session {W A} (m : M W A) : Prop :=
  forall st, session (snd (m st)) = session st.

(** Every surfaced exception among the events of [m] is accounted for:
    it is the exception [m] ends with, or the value [m] returns stands
    for it in the sense of [R]. *)
Definition accounts {W A} (R : A -> Exc -> Prop) (m : M W A) : Prop :=
  forall st, exists evs,
    added st (snd (m st)) evs
    /\ forall ev e, In ev evs -> surfaced ev = Some e ->
         match fst (m st) with
         | inl e0 => e0 = e
         | inr a => R a e
         end.

Definition never {A} : A -> Exc -> Prop := fun _ _ => False.

(** The calls of the two lookups of [utils.py]. *)
Definition lookup_event (ev : Event) : bool :=
  match ev_site ev, ev_call ev with
  | (AtResolver | AtExists), (CInit _ _ | CListCorpora) => true
  | _, _ => false
  end.

(** The calls of [utils.py] as a whole: the lookups and the creation. *)
Definition helper_event (ev : Event) : bool :=
  lookup_event ev
  || match ev_site ev, ev_call ev with
     | AtCreate, (CInit _ _ | CCreateCorpus _ _) => true
     | _, _ => false
     end.

(** What [m] returns, when it returns, is an envelope. *)
Definition enveloped {W} (m : M W PyDict) : Prop :=
  forall st, match fst (m st) with
             | inr d => envelope d
             | inl _ => True
             end.

(** [m] does not raise. *)
Definition total {W A} (m : M W A) : Prop :=
  forall st, exists a, fst (m st) = inr a.

End Logic.

(* ===================================================================== *)
(** ** Shapes of paths and of runs *)

Module Shape.

(** The two shapes [add_data] passes on as they are: a direct Drive file
    link, a storage URI. *)
Definition accepted (path : string) : bool :=
  Str.contains "drive.google.com/file/d/" path || Str.startswith "gs://" path.

(** [f"https://drive.google.com/file/d/{file_id}/view"] *)
Definition drive_url (file_id : string) : string :=
  "https://drive.google.com/file/d/" ++ file_id ++ "/view".

(** The Drive link a path is rewritten to, for the paths that are. *)
Definition converted (path : string) : option string :=
  if accepted path then None
  else if Str.contains "docs.google.com" path
       then option_map drive_url (Re.search_d_id path)
       else None.

(** Does the string start with a character of [[a-zA-Z0-9_-]]? *)
Definition starts_with_id_char (s : string) : bool :=
  match s with
  | EmptyString => false
  | String c _ => Re.id_char c
  end.

End Shape.

(** ** Runs, by what they do to the session store *)

Module Frame.

(** [m] writes, if anything, the flag of [corpus_name], and removes no
    key. *)
Definition confined {W A} (corpus_name : string) (m : M W A) : Prop :=
  forall st,
    (forall key, key <> state_key corpus_name ->
       session (snd (m st)) !! key = session st !! key)
    /\ (is_Some (session st !! state_key corpus_name) ->
        is_Some (session (snd (m st)) !! state_key corpus_name)).

(** [m] never takes back a flag that says [True]. *)
Definition keeps_true {W A} (corpus_name : string) (m : M W A) : Prop :=
  forall st,
    session st !! state_key corpus_name = Some true ->
    session (snd (m st)) !! state_key corpus_name = Some true.

(** The corpus a tool is called on. *)
Definition target (t : Tool) : option string :=
  match t with
  | RagQuery corpus_name _ => Some corpus_name
  | AddData corpus_name _ => Some corpus_name
  | DeleteCorpus corpus_name _ => Some corpus_name
  | DeleteDocument corpus_name _ => Some corpus_name
  | GetCorpusInfo corpus_name => Some corpus_name
  | ListCorpora => None
  end.

(** One entry of the result of [list_corpora]. *)
Definition corpus_entry (corpus : RagCorpus) (display_name : string) : PyVal :=
  VDict [("resource_name", VStr (rc_name corpus));
         ("display_name", VStr display_name);
         ("create_time", attr_or_empty (rc_create_time corpus));
         ("update_time", attr_or_empty (rc_update_time corpus))].

(** The entries for a listing in which every corpus has a display name. *)
Fixpoint corpus_entries (corpora : list RagCorpus) : option (list PyVal) :=
  match corpora with
  | [] => Some []
  | corpus :: rest =>
      match rc_display_name corpus, corpus_entries rest with
      | Some d, Some entries => Some (corpus_entry corpus d :: entries)
      | _, _ => None
      end
  end.

(** The display name [get_corpus_info] reports, from what the fetch of the
    corpus details gave. *)
Definition reported_display_name (corpus_name : string) (fetched : Exc + RagCorpus)
    : string :=
  match fetched with
  | inr corpus =>
      match rc_display_name corpus with
      | Some d => if String.eqb d "" then corpus_name else d
      | None => corpus_name
      end
  | inl _ => corpus_name
  end.

(** The results of [rag_query] for a response. *)
Definition results_of (response : RetrievalResponse) : list PyVal :=
  match resp_contexts response with
  | Some contexts => List.map context_dict contexts
  | None => []
  end.

Definition event (site : Site) (c : Call) (raised : option Exc) : Event :=
  {| ev_site := site; ev_call := c; ev_raised := raised |}.

End Frame.

(** ** A service with documents in it *)

Module Stocked.

Definition handbook : RagFile :=
  {| rf_name := Some "projects/demo/locations/us-central1/ragCorpora/7/ragFiles/42";
     rf_source_uri := Some "gs://bucket/handbook.pdf";
     rf_display_name := Some "handbook.pdf";
     rf_create_time := None;
     rf_update_time := None;
     rf_mime_type := Some "application/pdf";
     rf_state := None |}.

Definition passage (text : string) (score : Z) : Context :=
  {| ctx_source_uri := Some "gs://bucket/handbook.pdf";
     ctx_source_display_name := None;
     ctx_text := Some text;
     ctx_score := Some score |}.

(** Like [Service.memory], with one file in every corpus, two passages
    for every query, and no corpus details to fetch. *)
Definition shelf : Backend (list RagCorpus) :=
  {| vertexai_init := vertexai_init Service.memory;
     rag_list_corpora := rag_list_corpora Service.memory;
     rag_create_corpus := rag_create_corpus Service.memory;
     rag_delete_corpus := rag_delete_corpus Service.memory;
     rag_get_corpus := fun _ w => (inl "403 details not readable", w);
     rag_list_files := fun _ w => (inr [handbook], w);
     rag_import_files := rag_import_files Service.memory;
     rag_delete_file := rag_delete_file Service.memory;
     rag_retrieval_query := fun _ _ _ _ w =>
       (inr {| resp_contexts := Some [passage "first" 1; passage "second" 2] |}, w) |}.

(** The resource name of [Service.docs]. *)
Definition docs7 : string := "projects/demo/locations/us-central1/ragCorpora/7".

(** A session in which the corpus [Service.docs] is known to exist. *)
Definition warm : St (list RagCorpus) :=
  {| world := [Service.docs];
     session := {[ state_key (rc_name Service.docs) := true ]};
     log := [] |}.

End Stocked.

(** The tools' early exits: a result that is not the wanted one. *)
Ltac dead := intros [= <- <-]; simpl; try discriminate; try tauto.

(** A literal result is an envelope. *)
Ltac envelope_tac :=
  eexists _, _; simpl; repeat split; unfold Spec.statuses; simpl; tauto.

(* ===================================================================== *)
(** * Facts *)

(** ** Strings *)

Module StrFacts.

Lemma append_nil_r (s : string) : s ++ "" = s.
Proof. induction s as [|c s IH]; simpl; [reflexivity | now rewrite IH]. Qed.

Lemma append_assoc (s1 s2 s3 : string) : (s1 ++ s2) ++ s3 = s1 ++ (s2 ++ s3).
Proof. induction s1 as [|c s1 IH]; simpl; [reflexivity | now rewrite IH]. Qed.

Lemma append_eq_nil (s1 s2 : string) : s1 ++ s2 = "" -> s1 = "" /\ s2 = "".
Proof. destruct s1; simpl; [auto | discriminate]. Qed.

Lemma append_eq_cons (s1 s2 : string) (c : ascii) (s : string) :
  s1 ++ s2 = String c s ->
  (s1 = "" /\ s2 = String c s) \/ (exists s1', s1 = String c s1' /\ s = s1' ++ s2).
Proof.
  destruct s1 as [|c1 s1]; simpl; intros H.
  - left; auto.
  - right; injection H as -> <-. eauto.
Qed.

Lemma all_append (p : ascii -> bool) (s1 s2 : string) :
  Str.all p (s1 ++ s2) = Str.all p s1 && Str.all p s2.
Proof.
  induction s1 as [|c s1 IH]; simpl; [reflexivity|].
  rewrite IH. now rewrite andb_assoc.
Qed.

Lemma all_map (p : ascii -> bool) (f : ascii -> ascii) (s : string) :
  (forall c, p (f c) = true) -> Str.all p (Str.map f s) = true.
Proof. intros Hf. induction s as [|c s IH]; simpl; [reflexivity | now rewrite Hf, IH]. Qed.

Lemma all_impl (p q : ascii -> bool) (s : string) :
  (forall c, p c = true -> q c = true) -> Str.all p s = true -> Str.all q s = true.
Proof.
  intros Hpq. induction s as [|c s IH]; simpl; [reflexivity|].
  intros [Hc Hs]%andb_prop. now rewrite (Hpq _ Hc), IH.
Qed.

Lemma map_get (f : ascii -> ascii) (s : string) (i : nat) :
  String.get i (Str.map f s) = option_map f (String.get i s).
Proof.
  revert i. induction s as [|c s IH]; intros i; simpl; [reflexivity|].
  destruct i; [reflexivity | apply IH].
Qed.

Lemma map_eq_nil (f : ascii -> ascii) (s : string) : Str.map f s = "" -> s = "".
Proof. destruct s; simpl; [reflexivity | discriminate]. Qed.

(** [split] never gives an empty list, and no piece holds the separator. *)
Lemma split_not_nil (sep : ascii) (s : string) : Str.split sep s <> [].
Proof.
  induction s as [|c s IH]; simpl; [discriminate|].
  destruct (Ascii.eqb c sep); [discriminate|].
  destruct (Str.split sep s); [contradiction | discriminate].
Qed.

Lemma split_pieces (sep : ascii) (s : string) :
  Forall (fun piece => Str.all (fun c => negb (Ascii.eqb c sep)) piece = true)
         (Str.split sep s).
Proof.
  induction s as [|c s IH]; simpl.
  - repeat constructor.
  - destruct (Ascii.eqb c sep) eqn:E.
    + constructor; [reflexivity | exact IH].
    + destruct (Str.split sep s) as [|piece pieces].
      * repeat constructor. simpl. now rewrite E.
      * inversion IH as [|? ? Hp Hps]; subst.
        constructor; [simpl; now rewrite E, Hp | exact Hps].
Qed.

Lemma last_piece_no_sep (sep : ascii) (s : string) :
  Str.all (fun c => negb (Ascii.eqb c sep)) (Str.last_piece (Str.split sep s)) = true.
Proof.
  pose proof (split_pieces sep s) as H.
  pose proof (split_not_nil sep s) as Hn.
  unfold Str.last_piece.
  induction H as [|piece pieces Hp Hps IH]; [contradiction|].
  destruct pieces as [|q qs]; [exact Hp|].
  change (List.last (piece :: q :: qs) "") with (List.last (q :: qs) "").
  apply IH. discriminate.
Qed.

End StrFacts.

(** ** Regular expressions: the matcher computes the language *)

Module ReFacts.
Import Re StrFacts.

Lemma nullable_lang (r : regex) : nullable r = true <-> lang r "".
Proof.
  split.
  - induction r; simpl; intros H; try discriminate.
    + constructor.
    + apply andb_prop in H as [H1 H2].
      change "" with ("" ++ ""). constructor; auto.
    + apply orb_prop in H as [H|H]; [apply L_alt_l | apply L_alt_r]; auto.
    + constructor.
  - intros H. remember "" as s eqn:Es.
    induction H; simpl; try discriminate; try reflexivity.
    + apply append_eq_nil in Es as [-> ->]. now rewrite IHlang1, IHlang2.
    + now rewrite IHlang.
    + rewrite IHlang by assumption. apply orb_true_r.
Qed.

Lemma deriv_sound (a : ascii) (r : regex) (s : string) :
  lang (deriv a r) s -> lang r (String a s).
Proof.
  revert s. induction r; simpl; intros s H.
  - inversion H.
  - inversion H.
  - destruct (Ascii.eqb_spec a c) as [->|]; inversion H; subst. constructor.
  - destruct (p a) eqn:E; inversion H; subst. now constructor.
  - assert (Hcat : forall s, lang (Cat (deriv a r1) r2) s -> lang (Cat r1 r2) (String a s)).
    { intros s' H'. inversion H'; subst.
      change (String a (s1 ++ s2)) with (String a s1 ++ s2).
      constructor; auto. }
    destruct (nullable r1) eqn:N; [|auto].
    inversion H; subst; [auto|].
    change (String a s) with ("" ++ String a s).
    constructor; [now apply nullable_lang | auto].
  - inversion H; subst; [apply L_alt_l | apply L_alt_r]; auto.
  - inversion H; subst.
    change (String a (s1 ++ s2)) with (String a s1 ++ s2).
    constructor; auto.
Qed.

Lemma deriv_complete (a : ascii) (r : regex) (s : string) :
  lang r (String a s) -> lang (deriv a r) s.
Proof.
  intros H. remember (String a s) as w eqn:Ew. revert s Ew.
  induction H; intros t Ew; simpl; try discriminate.
  - inversion Ew; subst. rewrite Ascii.eqb_refl. constructor.
  - inversion Ew; subst. rewrite H. constructor.
  - apply append_eq_cons in Ew as [[-> ->]|(s1' & -> & ->)].
    + assert (N : nullable r1 = true) by now apply nullable_lang.
      rewrite N. apply L_alt_r. auto.
    + destruct (nullable r1); [apply L_alt_l|]; constructor; auto.
  - apply L_alt_l; auto.
  - apply L_alt_r; auto.
  - apply append_eq_cons in Ew as [[-> ->]|(s1' & -> & ->)].
    + auto.
    + constructor; auto.
Qed.

Theorem fullmatch_lang (r : regex) (s : string) :
  fullmatch r s = true <-> lang r s.
Proof.
  revert r. induction s as [|c s IH]; intros r; simpl.
  - apply nullable_lang.
  - rewrite IH. split; [apply deriv_sound | apply deriv_complete].
Qed.

Lemma lang_lit (l s : string) : lang (Lit l) s <-> s = l.
Proof.
  revert s. induction l as [|c l IH]; intros s; simpl.
  - split; [now inversion 1 | intros ->; constructor].
  - split.
    + intros H. inversion H as [| | |? ? ? ? H1 H2| | | |]; subst.
      inversion H1; subst. apply IH in H2 as ->. reflexivity.
    + intros ->. change (String c l) with (String c "" ++ l).
      constructor; [constructor | now apply IH].
Qed.

Lemma lang_star_class (p : ascii -> bool) (s : string) :
  lang (Star (Class p)) s <-> Str.all p s = true.
Proof.
  split.
  - intros H. remember (Star (Class p)) as r eqn:Er.
    induction H; try discriminate; [reflexivity|].
    injection Er as ->. inversion H as [| |? ? Hp| | | | |]; subst. simpl.
    rewrite IHlang2 by reflexivity. now rewrite Hp.
  - induction s as [|c s IH]; simpl; intros H; [constructor|].
    apply andb_prop in H as [Hc Hs].
    change (String c s) with (String c "" ++ s).
    constructor; [now constructor | auto].
Qed.

Lemma lang_plus_class (p : ascii -> bool) (s : string) :
  lang (Plus (Class p)) s <-> s <> "" /\ Str.all p s = true.
Proof.
  unfold Plus. split.
  - intros H. inversion H as [| | |? ? ? ? H1 H2| | | |]; subst.
    inversion H1 as [| |? ? Hp| | | | |]; subst. apply lang_star_class in H2. simpl.
    split; [discriminate | now rewrite Hp, H2].
  - intros [Hn H]. destruct s as [|c s]; [contradiction|].
    simpl in H. apply andb_prop in H as [Hc Hs].
    change (String c s) with (String c "" ++ s).
    constructor; [now constructor | now apply lang_star_class].
Qed.

Lemma lang_dollar (s : string) :
  lang Dollar s <-> s = "" \/ s = String "010"%char "".
Proof.
  unfold Dollar. split.
  - intros H. inversion H as [| | | |? ? ? H1|? ? ? H1| |]; subst.
    + left. now inversion H1.
    + right. now inversion H1.
  - intros [->| ->]; [apply L_alt_l | apply L_alt_r]; constructor.
Qed.

Lemma id_char_not_slash (c : ascii) : id_char c = true -> not_slash c = true.
Proof.
  unfold not_slash. destruct (Ascii.eqb_spec c "/"%char) as [->|]; [|reflexivity].
  vm_compute. discriminate.
Qed.

Lemma sub_non_id_chars (s : string) : Str.all id_char (sub_non_id s) = true.
Proof.
  apply all_map. intros c. destruct (id_char c) eqn:E; [exact E | reflexivity].
Qed.

End ReFacts.

(** ** The canonical pattern *)

Module CanonicalFacts.
Import Re StrFacts ReFacts Spec.

Lemma lang_cat (r1 r2 : regex) (s : string) :
  lang (Cat r1 r2) s <-> exists s1 s2, s = s1 ++ s2 /\ lang r1 s1 /\ lang r2 s2.
Proof.
  split.
  - intros H. inversion H; subst. eauto.
  - intros (s1 & s2 & -> & H1 & H2). now constructor.
Qed.

Lemma segment_lang (x : string) :
  lang (Plus (Class not_slash)) x <-> segment x.
Proof. apply lang_plus_class. Qed.

Lemma segment_newline (x : string) :
  segment x -> segment (x ++ String "010"%char "").
Proof.
  intros [Hn Ha]. split.
  - destruct x; [contradiction | discriminate].
  - rewrite all_append, Ha. reflexivity.
Qed.

(** [re.match] with the pattern of [get_corpus_resource_name] accepts
    exactly the canonical paths. *)
Theorem canonical_iff (s : string) :
  fullmatch CANONICAL s = true <-> canonical s.
Proof.
  rewrite fullmatch_lang. unfold CANONICAL, canonical, canonical_path. split.
  - intros H.
    apply lang_cat in H as (a1 & t1 & -> & Ha1 & H).
    apply lang_cat in H as (P & t2 & -> & HP & H).
    apply lang_cat in H as (a2 & t3 & -> & Ha2 & H).
    apply lang_cat in H as (L & t4 & -> & HL & H).
    apply lang_cat in H as (a3 & t5 & -> & Ha3 & H).
    apply lang_cat in H as (ID & d & -> & HID & Hd).
    apply lang_lit in Ha1 as ->. apply lang_lit in Ha2 as ->.
    apply lang_lit in Ha3 as ->.
    apply segment_lang in HP, HL, HID.
    exists P, L, (ID ++ d). repeat split; try apply HP; try apply HL.
    + destruct HID as [Hn _]. destruct ID; [contradiction | discriminate].
    + apply lang_dollar in Hd as [-> | ->].
      * rewrite append_nil_r. apply HID.
      * now apply segment_newline.
  - intros (P & L & ID & HP & HL & HID & ->).
    apply lang_cat. exists "projects/", (P ++ "/locations/" ++ L ++ "/ragCorpora/" ++ ID).
    split; [reflexivity|]. split; [now apply lang_lit|].
    apply lang_cat. exists P, ("/locations/" ++ L ++ "/ragCorpora/" ++ ID).
    split; [reflexivity|]. split; [now apply segment_lang|].
    apply lang_cat. exists "/locations/", (L ++ "/ragCorpora/" ++ ID).
    split; [reflexivity|]. split; [now apply lang_lit|].
    apply lang_cat. exists L, ("/ragCorpora/" ++ ID).
    split; [reflexivity|]. split; [now apply segment_lang|].
    apply lang_cat. exists "/ragCorpora/", ID.
    split; [reflexivity|]. split; [now apply lang_lit|].
    apply lang_cat. exists ID, "".
    split; [now rewrite append_nil_r|]. split; [now apply segment_lang|].
    apply lang_dollar. now left.
Qed.

End CanonicalFacts.

(** ** Running the monad *)

Module LogicFacts.
Import Spec Logic.

Section Generic.
Context {W : Type}.

Lemma bind_run {A B} (m : M W A) (k : A -> M W B) (st : St W) :
  (m ≫= k) st = match m st with
                | (inl e, st') => (inl e, st')
                | (inr a, st') => k a st'
                end.
Proof. reflexivity. Qed.

Lemma added_nil (st : St W) : added st st [].
Proof. unfold added. now rewrite app_nil_r. Qed.

Lemma added_trans (st1 st2 st3 : St W) (evs1 evs2 : list Event) :
  added st1 st2 evs1 -> added st2 st3 evs2 -> added st1 st3 (evs1 ++ evs2)%list.
Proof. unfold added. intros H1 H2. now rewrite H2, H1, app_assoc. Qed.

(** *** [emits] *)

Lemma emits_ret {A} (P : Event -> Prop) (a : A) : emits P (mret a : M W A).
Proof. intros st. exists []. split; [apply added_nil | constructor]. Qed.

Lemma emits_raise {A} (P : Event -> Prop) (e : Exc) : emits P (raise e : M W A).
Proof. intros st. exists []. split; [apply added_nil | constructor]. Qed.

Lemma emits_bind {A B} (P : Event -> Prop) (m : M W A) (k : A -> M W B) :
  emits P m -> (forall a, emits P (k a)) -> emits P (m ≫= k).
Proof.
  intros Hm Hk st. destruct (Hm st) as (evs1 & H1 & F1).
  rewrite bind_run. destruct (m st) as [[e|a] st1]; simpl in *.
  - exists evs1. auto.
  - destruct (Hk a st1) as (evs2 & H2 & F2).
    exists (evs1 ++ evs2)%list. split.
    + eapply added_trans; eassumption.
    + apply Forall_app. auto.
Qed.

Lemma emits_try {A} (P : Event -> Prop) (m : M W A) (h : Exc -> M W A) :
  emits P m -> (forall e, emits P (h e)) -> emits P (try_except m h).
Proof.
  intros Hm Hh st. destruct (Hm st) as (evs1 & H1 & F1).
  unfold try_except. destruct (m st) as [[e|a] st1]; simpl in *.
  - destruct (Hh e st1) as (evs2 & H2 & F2).
    exists (evs1 ++ evs2)%list. split.
    + eapply added_trans; eassumption.
    + apply Forall_app. auto.
  - exists evs1. auto.
Qed.

Lemma emits_call {A} (P : Event -> Prop) (site : Site) (c : Call)
    (f : W -> (Exc + A) * W) :
  (forall r, P {| ev_site := site; ev_call := c; ev_raised := r |}) ->
  emits P (call site c f).
Proof.
  intros HP st. unfold call. destruct (f (world st)) as [r w'].
  eexists. split; [reflexivity|]. repeat constructor. apply HP.
Qed.

Lemma emits_state_get (P : Event -> Prop) (key : string) :
  emits P (state_get key : M W _).
Proof. intros st. exists []. split; [apply added_nil | constructor]. Qed.

Lemma emits_state_has (P : Event -> Prop) (key : string) :
  emits P (state_has key : M W _).
Proof. intros st. exists []. split; [apply added_nil | constructor]. Qed.

Lemma emits_state_set (P : Event -> Prop) (key : string) (b : bool) :
  emits P (state_set key b : M W _).
Proof.
  intros st. exists []. split; [|constructor].
  unfold added. simpl. now rewrite app_nil_r.
Qed.

Lemma emits_getattr {A} (P : Event -> Prop) (cls attr : string) (o : option A) :
  emits P (getattr cls attr o : M W A).
Proof. destruct o; [apply emits_ret | apply emits_raise]. Qed.

Lemma emits_getitem (P : Event -> Prop) (k : string) (d : PyDict) :
  emits P (getitem k d : M W PyVal).
Proof. unfold getitem. destruct (Dict.get k d); [apply emits_ret | apply emits_raise]. Qed.

Lemma emits_impl {A} (P Q : Event -> Prop) (m : M W A) :
  (forall ev, P ev -> Q ev) -> emits P m -> emits Q m.
Proof.
  intros HPQ Hm st. destruct (Hm st) as (evs & H & F).
  exists evs. split; [exact H|]. eapply Forall_impl; eauto.
Qed.

(** *** [keeps_session] *)

Lemma keeps_ret {A} (a : A) : keeps_session (mret a : M W A).
Proof. intros st. reflexivity. Qed.

Lemma keeps_raise {A} (e : Exc) : keeps_session (raise e : M W A).
Proof. intros st. reflexivity. Qed.

Lemma keeps_bind {A B} (m : M W A) (k : A -> M W B) :
  keeps_session m -> (forall a, keeps_session (k a)) -> keeps_session (m ≫= k).
Proof.
  intros Hm Hk st. specialize (Hm st). rewrite bind_run.
  destruct (m st) as [[e|a] st1]; simpl in *; [exact Hm|].
  now rewrite Hk.
Qed.

Lemma keeps_try {A} (m : M W A) (h : Exc -> M W A) :
  keeps_session m -> (forall e, keeps_session (h e)) -> keeps_session (try_except m h).
Proof.
  intros Hm Hh st. specialize (Hm st). unfold try_except.
  destruct (m st) as [[e|a] st1]; simpl in *; [|exact Hm].
  now rewrite Hh.
Qed.

Lemma keeps_call {A} (site : Site) (c : Call) (f : W -> (Exc + A) * W) :
  keeps_session (call site c f).
Proof. intros st. unfold call. now destruct (f (world st)). Qed.

Lemma keeps_state_get (key : string) : keeps_session (state_get key : M W _).
Proof. intros st. reflexivity. Qed.

(** *** [accounts] *)

Lemma accounts_quiet {A} (R : A -> Exc -> Prop) (m : M W A) :
  emits (fun ev => surfaced ev = None) m -> accounts R m.
Proof.
  intros Hm st. destruct (Hm st) as (evs & H & F).
  exists evs. split; [exact H|]. intros ev e Hin He.
  rewrite List.Forall_forall in F. rewrite (F ev Hin) in He. discriminate.
Qed.

Lemma accounts_ret {A} (R : A -> Exc -> Prop) (a : A) : accounts R (mret a : M W A).
Proof. apply accounts_quiet, emits_ret. Qed.

Lemma accounts_call {A} (R : A -> Exc -> Prop) (site : Site) (c : Call)
    (f : W -> (Exc + A) * W) :
  accounts R (call site c f).
Proof.
  intros st. unfold call. destruct (f (world st)) as [r w'].
  eexists. split; [reflexivity|]. simpl.
  intros ev e [<-|[]] He. unfold surfaced in He. simpl in He.
  destruct r as [e0|a]; destruct site; simpl in He; congruence.
Qed.

Lemma accounts_bind {A B} (R : A -> Exc -> Prop) (R' : B -> Exc -> Prop)
    (m : M W A) (k : A -> M W B) :
  accounts R m ->
  (forall a, accounts R' (k a)) ->
  (forall a e st, R a e ->
     match fst (k a st) with inl e0 => e0 = e | inr b => R' b e end) ->
  accounts R' (m ≫= k).
Proof.
  intros Hm Hk HR st. destruct (Hm st) as (evs1 & H1 & F1).
  rewrite bind_run. destruct (m st) as [[e|a] st1]; simpl in *.
  - exists evs1. auto.
  - destruct (Hk a st1) as (evs2 & H2 & F2).
    exists (evs1 ++ evs2)%list. split.
    + eapply added_trans; eassumption.
    + intros ev e [Hin|Hin]%in_app_or He.
      * apply HR. eapply F1; eassumption.
      * eapply F2; eassumption.
Qed.

Lemma accounts_bind0 {A B} (R' : B -> Exc -> Prop) (m : M W A) (k : A -> M W B) :
  accounts never m -> (forall a, accounts R' (k a)) -> accounts R' (m ≫= k).
Proof. intros Hm Hk. eapply accounts_bind; eauto. intros ? ? ? []. Qed.

(** A handler that builds a result from the exception text. *)
Lemma accounts_try {A} (R R' : A -> Exc -> Prop) (m : M W A) (on_error : Exc -> A) :
  accounts R m ->
  (forall a e, R a e -> R' a e) ->
  (forall e, R' (on_error e) e) ->
  accounts R' (try_except m (fun e => mret (on_error e))).
Proof.
  intros Hm HR Hh st. destruct (Hm st) as (evs & H & F).
  unfold try_except. destruct (m st) as [[e0|a] st1]; simpl in *.
  - exists evs. split; [exact H|]. intros ev e Hin He.
    rewrite <- (F ev e Hin He). apply Hh.
  - exists evs. split; [exact H|]. eauto.
Qed.

(** *** [enveloped] and [total] *)

Lemma enveloped_ret (d : PyDict) : envelope d -> enveloped (mret d : M W PyDict).
Proof. intros Hd st. exact Hd. Qed.

Lemma enveloped_bind {A} (m : M W A) (k : A -> M W PyDict) :
  (forall a, enveloped (k a)) -> enveloped (m ≫= k).
Proof.
  intros Hk st. rewrite bind_run.
  destruct (m st) as [[e|a] st1]; simpl; [exact I | apply Hk].
Qed.

Lemma enveloped_try (m : M W PyDict) (on_error : Exc -> PyDict) :
  enveloped m -> (forall e, envelope (on_error e)) ->
  forall st, exists d,
    fst (try_except m (fun e => mret (on_error e)) st) = inr d /\ envelope d.
Proof.
  intros Hm Hh st. specialize (Hm st). unfold try_except.
  destruct (m st) as [[e|d] st1]; simpl in *; eauto.
Qed.

Lemma enveloped_of_try (m : M W PyDict) (on_error : Exc -> PyDict) :
  enveloped m -> (forall e, envelope (on_error e)) ->
  enveloped (try_except m (fun e => mret (on_error e))).
Proof.
  intros Hm Hh st. destruct (enveloped_try m on_error Hm Hh st) as (d & -> & Hd).
  exact Hd.
Qed.

End Generic.

End LogicFacts.

(** ** [utils.py] *)

Module UtilsFacts.
Import Spec Logic LogicFacts.

Section Utils.
Context {W : Type} (be : Backend W).
Variables PROJECT_ID LOCATION : string.

#[local] Abbreviation init_at := (init be PROJECT_ID LOCATION).
#[local] Abbreviation lookup := (lookup_display_name be PROJECT_ID LOCATION).
#[local] Abbreviation resolve := (get_corpus_resource_name be PROJECT_ID LOCATION).
#[local] Abbreviation check := (check_corpus_exists be PROJECT_ID LOCATION).
#[local] Abbreviation create := (create_corpus_if_not_exists be PROJECT_ID LOCATION).

Lemma init_keeps (site : Site) : keeps_session (init_at site).
Proof. apply keeps_call. Qed.

Lemma init_emits (P : Event -> Prop) (site : Site) :
  (forall r, P {| ev_site := site; ev_call := CInit PROJECT_ID LOCATION;
                  ev_raised := r |}) ->
  emits P (init_at site).
Proof. apply emits_call. Qed.

(** *** The resolver *)

Lemma resolver_canonical (corpus_name : string) (st : St W) :
  Re.fullmatch CANONICAL corpus_name = true ->
  resolve corpus_name st = (inr corpus_name, st).
Proof. intros H. unfold get_corpus_resource_name. now rewrite H. Qed.

Lemma resolver_fallback (corpus_name : string) (st : St W) :
  Re.fullmatch CANONICAL corpus_name = false ->
  fst (lookup corpus_name st) = inr None ->
  resolve corpus_name st
  = (inr (canonical_path PROJECT_ID LOCATION (fallback_corpus_id corpus_name)),
     snd (lookup corpus_name st)).
Proof.
  intros H Hl. unfold get_corpus_resource_name. rewrite H, bind_run.
  destruct (lookup corpus_name st) as [r st1]. simpl in Hl. now subst r.
Qed.

Lemma lookup_total (corpus_name : string) : total (lookup corpus_name).
Proof.
  intros st. unfold lookup_display_name, try_except.
  match goal with |- context [match ?m st with _ => _ end] => destruct (m st) as [[e|a] st1] end;
    simpl; eauto.
Qed.

Lemma lookup_emits (corpus_name : string) :
  emits (fun ev => lookup_event ev = true) (lookup corpus_name).
Proof.
  apply emits_try; [|intros; apply emits_ret].
  apply emits_bind; [apply emits_call; reflexivity | intros _].
  apply emits_bind; [apply emits_call; reflexivity | intros corpora].
  apply emits_ret.
Qed.

Lemma lookup_keeps (corpus_name : string) :
  keeps_session (lookup corpus_name).
Proof.
  apply keeps_try; [|intros; apply keeps_ret].
  apply keeps_bind; [apply keeps_call | intros _].
  apply keeps_bind; [apply keeps_call | intros corpora].
  apply keeps_ret.
Qed.

Lemma resolver_total (corpus_name : string) :
  total (resolve corpus_name).
Proof.
  intros st. unfold get_corpus_resource_name.
  destruct (Re.fullmatch CANONICAL corpus_name); [simpl; eauto|].
  rewrite bind_run. destruct (lookup_total corpus_name st) as (found & Hf).
  destruct (lookup corpus_name st) as [r st1]. simpl in Hf. subst r.
  destruct found; simpl; eauto.
Qed.

Lemma resolver_emits (corpus_name : string) :
  emits (fun ev => lookup_event ev = true) (resolve corpus_name).
Proof.
  unfold get_corpus_resource_name.
  destruct (Re.fullmatch CANONICAL corpus_name); [apply emits_ret|].
  apply emits_bind; [apply lookup_emits | intros [name|]; apply emits_ret].
Qed.

Lemma resolver_keeps (corpus_name : string) :
  keeps_session (resolve corpus_name).
Proof.
  unfold get_corpus_resource_name.
  destruct (Re.fullmatch CANONICAL corpus_name); [apply keeps_ret|].
  apply keeps_bind; [apply lookup_keeps | intros [name|]; apply keeps_ret].
Qed.

(** *** The existence check *)

Lemma exists_loop_emits (P : Event -> Prop) (corpus_name resource : string)
    (corpora : list RagCorpus) :
  emits P (exists_loop corpus_name resource corpora : M W bool).
Proof.
  induction corpora as [|corpus rest IH]; simpl; [apply emits_ret|].
  apply emits_bind.
  - destruct (String.eqb (rc_name corpus) resource); [apply emits_ret|].
    apply emits_bind; [apply emits_getattr | intros; apply emits_ret].
  - intros [|]; [|exact IH].
    apply emits_bind; [apply emits_state_set | intros; apply emits_ret].
Qed.

(** The loop writes the flag exactly when it answers [True]. *)
Lemma exists_loop_flag (corpus_name resource : string) (corpora : list RagCorpus)
    (st : St W) :
  match fst (exists_loop corpus_name resource corpora st) with
  | inr true =>
      session (snd (exists_loop corpus_name resource corpora st))
      = <[state_key corpus_name := true]> (session st)
  | _ => session (snd (exists_loop corpus_name resource corpora st)) = session st
  end.
Proof.
  induction corpora as [|corpus rest IH]; simpl; [reflexivity|].
  rewrite bind_run.
  destruct (String.eqb (rc_name corpus) resource); simpl.
  - reflexivity.
  - destruct (rc_display_name corpus) as [d|]; simpl; [|reflexivity].
    destruct (String.eqb d corpus_name); simpl; [reflexivity | exact IH].
Qed.

Lemma check_cached (corpus_name : string) (st : St W) :
  session st !! state_key corpus_name = Some true ->
  check corpus_name st = (inr true, st).
Proof.
  intros H. unfold check_corpus_exists. rewrite bind_run.
  unfold state_get. now rewrite H.
Qed.

Lemma check_total (corpus_name : string) : total (check corpus_name).
Proof.
  intros st. unfold check_corpus_exists. rewrite bind_run.
  unfold state_get.
  destruct (default false (session st !! state_key corpus_name)); [simpl; eauto|].
  unfold try_except.
  match goal with |- context [match ?m st with _ => _ end] => destruct (m st) as [[e|a] st1] end;
    simpl; eauto.
Qed.

Lemma check_emits (corpus_name : string) :
  emits (fun ev => lookup_event ev = true) (check corpus_name).
Proof.
  unfold check_corpus_exists.
  apply emits_bind; [apply emits_state_get | intros cached].
  destruct (default false cached); [apply emits_ret|].
  apply emits_try; [|intros; apply emits_ret].
  apply emits_bind; [apply emits_call; reflexivity | intros _].
  apply emits_bind; [apply resolver_emits | intros resource].
  apply emits_bind; [apply emits_call; reflexivity | intros corpora].
  apply exists_loop_emits.
Qed.

(** The check answers [True] only with the flag set, and otherwise
    leaves the session store as it was. *)
Lemma check_flag (corpus_name : string) (st st' : St W) (r : Exc + bool) :
  check corpus_name st = (r, st') ->
  match r with
  | inr true =>
      session st' !! state_key corpus_name = Some true
      /\ forall key, key <> state_key corpus_name ->
           session st' !! key = session st !! key
  | _ => session st' = session st
  end.
Proof.
  unfold check_corpus_exists. rewrite bind_run. unfold state_get.
  destruct (session st !! state_key corpus_name) as [[|]|] eqn:Ek; simpl.
  { intros [= <- <-]. now split. }
  all: unfold try_except; rewrite bind_run.
  all: pose proof (init_keeps AtExists st) as K1.
  all: destruct (init_at AtExists st) as [[e|[]] st1]; simpl in K1 |- *;
    [intros [= <- <-]; exact K1|].
  all: rewrite bind_run.
  all: pose proof (resolver_keeps corpus_name st1) as K2.
  all: destruct (resolve corpus_name st1) as [[e|resource] st2]; simpl in K2 |- *;
    [intros [= <- <-]; congruence|].
  all: rewrite bind_run.
  all: pose proof (keeps_call AtExists CListCorpora (rag_list_corpora be) st2) as K3.
  all: destruct (call AtExists CListCorpora (rag_list_corpora be) st2)
         as [[e|corpora] st3]; simpl in K3 |- *; [intros [= <- <-]; congruence|].
  all: pose proof (exists_loop_flag corpus_name resource corpora st3) as K4.
  all: destruct (exists_loop corpus_name resource corpora st3) as [[e|[|]] st4];
    simpl in K4 |- *; intros [= <- <-]; try congruence.
  all: rewrite K4, K3, K2, K1; split;
    [apply lookup_insert_eq | intros key Hk; now apply lookup_insert_ne].
Qed.

(** *** Creation *)

Lemma create_cases (corpus_name : string) (st st' : St W) (r : Exc + PyDict) :
  create corpus_name st = (r, st') ->
  r = inr (already_exists corpus_name)
  \/ (exists name display_name, r = inr (created corpus_name name display_name))
  \/ (exists e, r = inr (create_error corpus_name e)).
Proof.
  unfold create_corpus_if_not_exists. rewrite bind_run.
  destruct (check_total corpus_name st) as (b & Hb).
  destruct (check corpus_name st) as [rb st1]. simpl in Hb. subst rb.
  destruct b; simpl.
  { intros [= <- <-]. now left. }
  unfold try_except. rewrite bind_run.
  destruct (init_at AtCreate st1) as [[e|[]] st2]; simpl.
  { intros [= <- <-]. right; right. now exists e. }
  rewrite bind_run.
  match goal with |- context [call ?s ?c ?f st2] =>
    destruct (call s c f st2) as [[e|rag_corpus] st3] end; simpl.
  { intros [= <- <-]. right; right. now exists e. }
  destruct (rc_display_name rag_corpus) as [d|]; simpl; intros [= <- <-].
  - right; left. now exists (rc_name rag_corpus), d.
  - right; right. eauto.
Qed.

Lemma create_total (corpus_name : string) : total (create corpus_name).
Proof.
  intros st. destruct (create corpus_name st) as [r st'] eqn:E.
  apply create_cases in E as [->|[(n & d & ->)|(e & ->)]]; simpl; eauto.
Qed.

(** A successful creation step leaves the flag set. *)
Lemma create_flag (corpus_name : string) (st st' : St W) (d : PyDict) :
  create corpus_name st = (inr d, st') ->
  Dict.get "success" d = Some (VBool true) ->
  session st' !! state_key corpus_name = Some true.
Proof.
  unfold create_corpus_if_not_exists. rewrite bind_run.
  pose proof (check_flag corpus_name st) as Hc.
  destruct (check corpus_name st) as [rb st1].
  specialize (Hc st1 rb eq_refl).
  destruct rb as [e|[|]]; simpl.
  { intros [=]. }
  { intros [= <- <-] _. apply Hc. }
  unfold try_except. rewrite bind_run.
  destruct (init_at AtCreate st1) as [[e|[]] st2]; simpl.
  { intros [= <- <-]. discriminate. }
  rewrite bind_run.
  match goal with |- context [call ?s ?c ?f st2] =>
    destruct (call s c f st2) as [[e|rag_corpus] st3] end; simpl.
  { intros [= <- <-]. discriminate. }
  destruct (rc_display_name rag_corpus) as [dn|]; simpl; intros [= <- <-].
  - intros _. simpl. apply lookup_insert_eq.
  - discriminate.
Qed.

Lemma create_emits (corpus_name : string) :
  emits (fun ev => helper_event ev = true) (create corpus_name).
Proof.
  unfold create_corpus_if_not_exists.
  apply emits_bind.
  { eapply emits_impl; [|apply check_emits].
    intros ev H. unfold helper_event. now rewrite H. }
  intros [|]; [apply emits_ret|].
  apply emits_try; [|intros; apply emits_ret].
  apply emits_bind; [apply emits_call; reflexivity | intros _].
  apply emits_bind; [apply emits_call; reflexivity | intros rag_corpus].
  apply emits_bind; [apply emits_state_set | intros _].
  apply emits_bind; [apply emits_getattr | intros d].
  apply emits_ret.
Qed.

(** An exception of the creation step ends up in the message of its
    result. *)
Lemma create_accounts (corpus_name : string) :
  accounts (fun d e => d = create_error corpus_name e) (create corpus_name).
Proof.
  unfold create_corpus_if_not_exists.
  apply accounts_bind0.
  { apply accounts_quiet. eapply emits_impl; [|apply check_emits].
    intros ev H. unfold lookup_event in H. unfold surfaced.
    destruct (ev_site ev); try reflexivity; discriminate. }
  intros [|]; [apply accounts_ret|].
  apply (accounts_try never); [|intros ? ? []|reflexivity].
  apply accounts_bind0; [apply accounts_call | intros _].
  apply accounts_bind0; [apply accounts_call | intros rag_corpus].
  apply accounts_bind0; [apply accounts_quiet, emits_state_set | intros _].
  apply accounts_bind0; [apply accounts_quiet, emits_getattr | intros d].
  apply accounts_ret.
Qed.

End Utils.

End UtilsFacts.

(** ** [add_data.py]: the validation loop *)

Module AddDataFacts.
Import Spec.

Lemma sort_path_invalid (acc : Sorted) (path : string) :
  validates path = false ->
  sort_path acc path
  = {| validated_paths := validated_paths acc;
       invalid_paths := (invalid_paths acc ++ [path])%list;
       conversions := conversions acc |}.
Proof.
  unfold validates, sort_path. intros H.
  apply orb_false_elim in H as [H Hdocs].
  apply orb_false_elim in H as [Hdrive Hgs].
  rewrite Hdrive, Hgs.
  destruct (Str.contains "docs.google.com" path); [|reflexivity].
  destruct (Re.search_d_id path); [discriminate | reflexivity].
Qed.

Lemma fold_sort_invalid (paths : list string) (acc : Sorted) :
  Forall (fun path => validates path = false) paths ->
  List.fold_left sort_path paths acc
  = {| validated_paths := validated_paths acc;
       invalid_paths := (invalid_paths acc ++ paths)%list;
       conversions := conversions acc |}.
Proof.
  intros H. revert acc. induction H as [|path paths Hp _ IH]; intros acc; simpl.
  - rewrite app_nil_r. now destruct acc.
  - rewrite IH, (sort_path_invalid _ _ Hp). simpl. now rewrite <- app_assoc.
Qed.

Lemma sort_paths_invalid (paths : list string) :
  Forall (fun path => validates path = false) paths ->
  sort_paths paths
  = {| validated_paths := []; invalid_paths := paths; conversions := [] |}.
Proof. intros H. unfold sort_paths. now rewrite (fold_sort_invalid _ _ H). Qed.

(** The words of the specification and the loop agree on what validates:
    each path that validates adds one validated path, the others none. *)
Lemma sort_path_validated (acc : Sorted) (path : string) :
  List.length (validated_paths (sort_path acc path))
  = (List.length (validated_paths acc) + (if validates path then 1 else 0))%nat.
Proof.
  unfold validates, sort_path.
  destruct (Str.contains "drive.google.com/file/d/" path); simpl;
    [rewrite length_app; reflexivity|].
  destruct (Str.startswith "gs://" path); simpl; [rewrite length_app; reflexivity|].
  destruct (Str.contains "docs.google.com" path); simpl; [|lia].
  destruct (Re.search_d_id path); simpl; [rewrite length_app; reflexivity | lia].
Qed.

Lemma fold_sort_validated (paths : list string) (acc : Sorted) :
  List.length (validated_paths (List.fold_left sort_path paths acc))
  = (List.length (validated_paths acc)
     + List.length (List.filter validates paths))%nat.
Proof.
  revert acc. induction paths as [|path paths IH]; intros acc; simpl; [lia|].
  rewrite IH, sort_path_validated. destruct (validates path); simpl; lia.
Qed.

Lemma no_validated_iff (paths : list string) :
  validated_paths (sort_paths paths) = []
  <-> Forall (fun path => validates path = false) paths.
Proof.
  split; [|intros H; now rewrite (sort_paths_invalid _ H)].
  intros H. apply (f_equal (@List.length string)) in H.
  unfold sort_paths in H. rewrite fold_sort_validated in H. simpl in H.
  induction paths as [|path paths IH]; [constructor|].
  simpl in H. destruct (validates path) eqn:E; [discriminate|].
  constructor; [exact E | apply IH, H].
Qed.

Lemma helper_not_retrieval (ev : Event) :
  Logic.helper_event ev = true -> is_retrieval (ev_call ev) = false.
Proof.
  unfold Logic.helper_event, Logic.lookup_event.
  destruct (ev_site ev), (ev_call ev); simpl; intros H; try reflexivity; discriminate.
Qed.

End AddDataFacts.

(** ** The fallback of the resolver *)

Module FallbackFacts.
Import Spec StrFacts ReFacts CanonicalFacts.

Lemma append_not_nil (s t : string) : t <> "" -> s ++ t <> "".
Proof. intros Ht H. apply append_eq_nil in H as [_ H]. contradiction. Qed.

Lemma last_char_cons (c : ascii) (s : string) :
  s <> "" -> last_char (String c s) = last_char s.
Proof. destruct s; [contradiction | reflexivity]. Qed.

Lemma last_char_append (s t : string) : t <> "" -> last_char (s ++ t) = last_char t.
Proof.
  intros Ht. induction s as [|c s IH]; [reflexivity|].
  simpl String.append. rewrite last_char_cons; [exact IH | now apply append_not_nil].
Qed.

Lemma last_char_some (s : string) (c : ascii) : last_char s = Some c -> s <> "".
Proof. destruct s; [discriminate | discriminate]. Qed.

Lemma last_char_all (p : ascii -> bool) (s : string) (c : ascii) :
  Str.all p s = true -> last_char s = Some c -> p c = true.
Proof.
  induction s as [|a s IH]; [discriminate|].
  intros [Ha Hs]%andb_prop. destruct s as [|b s].
  - intros [= <-]. exact Ha.
  - rewrite last_char_cons by discriminate. now apply IH.
Qed.

(** A canonical path does not end in a slash. *)
Lemma canonical_last_char (s : string) : canonical s -> last_char s <> Some "/"%char.
Proof.
  intros (P & L & ID & _ & _ & [Hn Hall] & ->) H. unfold canonical_path in H.
  rewrite !last_char_append in H
    by (repeat apply append_not_nil; first [exact Hn | discriminate]).
  apply (last_char_all _ _ _ Hall) in H. discriminate.
Qed.

Lemma path_without_id (P L : string) :
  last_char (canonical_path P L "") = Some "/"%char.
Proof.
  unfold canonical_path.
  rewrite (last_char_append "projects/"), (last_char_append P),
    (last_char_append "/locations/"), (last_char_append L);
    first [reflexivity | repeat first [discriminate | apply append_not_nil]].
Qed.

Lemma contains_last_char (c : ascii) (s : string) :
  last_char s = Some c -> Str.contains (String c "") s = true.
Proof.
  induction s as [|a s IH]; [discriminate|].
  destruct s as [|b s].
  - intros [= ->]. simpl. destruct (ascii_dec c c); [reflexivity | contradiction].
  - rewrite last_char_cons by discriminate. intros H.
    change (Str.contains (String c "") (String a (String b s)))
      with (String.prefix (String c "") (String a (String b s))
            || Str.contains (String c "") (String b s)).
    rewrite (IH H). apply orb_true_r.
Qed.

Lemma contains_none (c : ascii) (s : string) :
  Str.contains (String c "") s = false ->
  Str.all (fun x => negb (Ascii.eqb x c)) s = true.
Proof.
  induction s as [|a s IH]; [reflexivity|].
  simpl. intros [Hp Hs]%orb_false_elim.
  rewrite (IH Hs), andb_true_r.
  destruct (ascii_dec c a) as [->|Hne]; [destruct s; discriminate|].
  destruct (Ascii.eqb_spec a c); [congruence | reflexivity].
Qed.

(** The pieces of a string that ends in the separator end in an empty
    piece. *)
Lemma split_trailing (sep : ascii) (s : string) :
  last_char s = Some sep ->
  exists first pieces, Str.split sep s = first :: (pieces ++ [""])%list.
Proof.
  induction s as [|a s IH]; [discriminate|].
  destruct s as [|b s].
  - intros [= ->]. simpl. rewrite Ascii.eqb_refl. now exists "", [].
  - rewrite last_char_cons by discriminate. intros H.
    destruct (IH H) as (first & pieces & E).
    change (Str.split sep (String a (String b s)))
      with (if Ascii.eqb a sep then "" :: Str.split sep (String b s)
            else match Str.split sep (String b s) with
                 | [] => [String a ""]
                 | piece :: rest => String a piece :: rest
                 end).
    rewrite E. destruct (Ascii.eqb a sep).
    + now exists "", (first :: pieces).
    + now exists (String a first), pieces.
Qed.

Lemma last_piece_trailing (sep : ascii) (s : string) :
  last_char s = Some sep -> Str.last_piece (Str.split sep s) = "".
Proof.
  intros H. destruct (split_trailing sep s H) as (first & pieces & ->).
  unfold Str.last_piece. change (first :: (pieces ++ [""])%list)
    with ((first :: pieces) ++ [""])%list.
  apply List.last_last.
Qed.

(** [split] cuts the string where it says: either there is one piece, the
    string itself, or the last piece follows a separator. *)
Lemma split_last (sep : ascii) (s : string) :
  match Str.split sep s with
  | [] => False
  | [piece] => s = piece
  | _ :: pieces =>
      exists before, s = before ++ List.last pieces "" /\ last_char before = Some sep
  end.
Proof.
  induction s as [|a s IH]; [reflexivity|].
  simpl. destruct (Ascii.eqb_spec a sep) as [->|Hne].
  - destruct (Str.split sep s) as [|first [|second pieces]]; [contradiction| |].
    + exists (String sep ""). subst s. now split.
    + destruct IH as (before & -> & Hb). exists (String sep before).
      split; [reflexivity|]. rewrite last_char_cons; [exact Hb|].
      now apply last_char_some in Hb.
  - destruct (Str.split sep s) as [|first [|second pieces]]; [contradiction| |].
    + now subst s.
    + destruct IH as (before & -> & Hb). exists (String a before).
      split; [reflexivity|]. rewrite last_char_cons; [exact Hb|].
      now apply last_char_some in Hb.
Qed.

(** [last_segment] is what follows the last slash, or the whole string
    when there is no slash. *)
Lemma last_segment_spec (name : string) :
  exists before,
    name = before ++ last_segment name
    /\ (before = "" \/ last_char before = Some "/"%char)
    /\ Str.all Re.not_slash (last_segment name) = true.
Proof.
  unfold last_segment. destruct (Str.contains "/" name) eqn:Ec.
  - pose proof (split_last "/" name) as H.
    pose proof (last_piece_no_sep "/" name) as Hall.
    unfold Str.last_piece in *.
    destruct (Str.split "/" name) as [|first [|second pieces]]; [contradiction| |].
    + exists "". subst first. auto.
    + destruct H as (before & H & Hb). exists before.
      change (List.last (first :: second :: pieces) "")
        with (List.last (second :: pieces) "") in *. auto.
  - exists "". split; [reflexivity|]. split; [now left|].
    now apply contains_none.
Qed.

Lemma fallback_segment (name : string) :
  last_segment name <> "" -> segment (fallback_corpus_id name).
Proof.
  intros Hn. unfold fallback_corpus_id. split.
  - intros H. apply map_eq_nil in H. contradiction.
  - eapply all_impl; [apply id_char_not_slash | apply sub_non_id_chars].
Qed.

(** The fallback identifier of a path that ends in a slash is empty. *)
Lemma fallback_of_trailing_slash (name : string) :
  last_char name = Some "/"%char -> fallback_corpus_id name = "".
Proof.
  intros H. unfold fallback_corpus_id, last_segment.
  rewrite (contains_last_char _ _ H), (last_piece_trailing _ _ H). reflexivity.
Qed.

Lemma not_canonical (s : string) :
  ~ canonical s <-> Re.fullmatch CANONICAL s = false.
Proof.
  rewrite <- canonical_iff. apply not_true_iff_false.
Qed.

End FallbackFacts.

(** ** The tools: envelopes and reported exceptions *)

Module ToolFacts.
Import Spec Logic LogicFacts UtilsFacts StrFacts.

Lemma embeds_self (e : string) : embeds e e.
Proof. exists "", "". simpl. now rewrite append_nil_r. Qed.

Lemma embeds_cons (c : ascii) (m e : string) : embeds m e -> embeds (String c m) e.
Proof. intros (b & a & ->). now exists (String c b), a. Qed.

Lemma embeds_app (pre m e : string) : embeds m e -> embeds (pre ++ m) e.
Proof.
  intros (b & a & ->). exists (pre ++ b), a. now rewrite append_assoc.
Qed.

Lemma refusal_reports (corpus_name : string) (more : PyDict) (e : Exc) :
  reports (refusal corpus_name more e) e.
Proof.
  split; [reflexivity|]. eexists. split; [reflexivity|].
  repeat first [apply embeds_self | apply embeds_cons | apply embeds_app].
Qed.

Lemma lookup_quiet (ev : Event) : lookup_event ev = true -> surfaced ev = None.
Proof.
  unfold lookup_event, surfaced. destruct (ev_site ev); try reflexivity; discriminate.
Qed.

Section Tools.
Context {W : Type} (be : Backend W).
Variables PROJECT_ID LOCATION : string.

#[local] Abbreviation init_at := (init be PROJECT_ID LOCATION).
#[local] Abbreviation resolve := (get_corpus_resource_name be PROJECT_ID LOCATION).
#[local] Abbreviation check := (check_corpus_exists be PROJECT_ID LOCATION).
#[local] Abbreviation create := (create_corpus_if_not_exists be PROJECT_ID LOCATION).

Lemma check_quiet (corpus_name : string) :
  emits (fun ev => surfaced ev = None) (check corpus_name).
Proof. eapply emits_impl; [apply lookup_quiet | apply check_emits]. Qed.

Lemma resolve_quiet (corpus_name : string) :
  emits (fun ev => surfaced ev = None) (resolve corpus_name).
Proof. eapply emits_impl; [apply lookup_quiet | apply resolver_emits]. Qed.

Lemma corpus_infos_emits (P : Event -> Prop) (corpora : list RagCorpus) :
  emits P (corpus_infos corpora : M W (list PyVal)).
Proof.
  induction corpora as [|corpus rest IH]; simpl; [apply emits_ret|].
  apply emits_bind; [apply emits_getattr | intros d].
  apply emits_bind; [exact IH | intros infos; apply emits_ret].
Qed.

Ltac reports_tac :=
  split; [reflexivity|]; eexists; split; [reflexivity|];
  repeat first [apply embeds_self | apply embeds_cons | apply embeds_app].

Ltac quiet_tac :=
  first [ apply emits_ret | apply emits_getitem | apply emits_getattr
        | apply emits_state_has | apply emits_state_set | apply emits_state_get
        | apply check_quiet | apply resolve_quiet | apply corpus_infos_emits
        | apply emits_call; reflexivity
        | apply emits_bind; [quiet_tac | intros; quiet_tac]
        | apply emits_try; [quiet_tac | intros; quiet_tac]
        | match goal with
          | |- emits _ (if ?b then _ else _) => destruct b; quiet_tac
          | |- emits _ (match ?x with _ => _ end) => destruct x; quiet_tac
          end ].

Ltac accounts_tac :=
  repeat (cbv beta zeta;
          first [ apply accounts_ret
                | apply accounts_bind0;
                  [first [apply accounts_call | apply accounts_quiet; quiet_tac] | intros]
                | match goal with
                  | |- accounts _ (if ?b then _ else _) => destruct b
                  | |- accounts _ (match ?x with _ => _ end) => destruct x
                  end ]).

Ltac enveloped_tac :=
  repeat (cbv beta zeta;
          first [ apply enveloped_ret; envelope_tac
                | apply enveloped_of_try; [|intros; envelope_tac]
                | apply enveloped_bind; intros
                | match goal with
                  | |- enveloped (if ?b then _ else _) => destruct b
                  | |- enveloped (match ?x with _ => _ end) => destruct x
                  end ]).

(** *** Every tool returns, and what it returns is an envelope *)

Lemma rag_query_envelope (corpus_name query : string) (st : St W) :
  exists d, fst (rag_query be PROJECT_ID LOCATION corpus_name query st) = inr d
            /\ envelope d.
Proof. apply enveloped_try; [enveloped_tac | intros; envelope_tac]. Qed.

Lemma add_data_envelope (corpus_name : string) (paths : list string) (st : St W) :
  exists d, fst (add_data be PROJECT_ID LOCATION corpus_name paths st) = inr d
            /\ envelope d.
Proof. apply enveloped_try; [enveloped_tac | intros; envelope_tac]. Qed.

Lemma delete_corpus_envelope (corpus_name : string) (confirm : bool) (st : St W) :
  exists d, fst (delete_corpus be PROJECT_ID LOCATION corpus_name confirm st) = inr d
            /\ envelope d.
Proof. apply enveloped_try; [enveloped_tac | intros; envelope_tac]. Qed.

Lemma delete_document_envelope (corpus_name document_id : string) (st : St W) :
  exists d, fst (delete_document be PROJECT_ID LOCATION corpus_name document_id st) = inr d
            /\ envelope d.
Proof. apply enveloped_try; [enveloped_tac | intros; envelope_tac]. Qed.

Lemma get_corpus_info_envelope (corpus_name : string) (st : St W) :
  exists d, fst (get_corpus_info be PROJECT_ID LOCATION corpus_name st) = inr d
            /\ envelope d.
Proof. apply enveloped_try; [enveloped_tac | intros; envelope_tac]. Qed.

Lemma list_corpora_envelope (st : St W) :
  exists d, fst (list_corpora be PROJECT_ID LOCATION st) = inr d /\ envelope d.
Proof. apply enveloped_try; [enveloped_tac | intros; envelope_tac]. Qed.

(** *** Every surfaced exception is reported *)

(** The creation step inside [rag_query] and [add_data]: its exception
    comes back in the refusal. *)
Lemma after_create {B} (R : B -> Exc -> Prop) (corpus_name : string)
    (k : PyDict -> M W B) :
  (forall d, accounts R (k d)) ->
  (forall e st, match fst (k (create_error corpus_name e) st) with
                | inl e0 => e0 = e
                | inr b => R b e
                end) ->
  accounts R (create corpus_name ≫= k).
Proof.
  intros Hk He.
  apply (accounts_bind (fun d e => d = create_error corpus_name e));
    [apply create_accounts | exact Hk | intros a e st ->; apply He].
Qed.

Lemma rag_query_accounts (corpus_name query : string) :
  accounts reports (rag_query be PROJECT_ID LOCATION corpus_name query).
Proof.
  apply (accounts_try reports); [|auto|intros; reports_tac].
  apply accounts_bind0; [apply accounts_call | intros _].
  apply after_create; [intros; accounts_tac | intros e st].
  apply (refusal_reports corpus_name _ e).
Qed.

Lemma add_data_accounts (corpus_name : string) (paths : list string) :
  accounts reports (add_data be PROJECT_ID LOCATION corpus_name paths).
Proof.
  apply (accounts_try reports); [|auto|intros; reports_tac].
  apply accounts_bind0; [apply accounts_call | intros _]. cbv zeta.
  destruct (validated_paths (sort_paths paths)); [apply accounts_ret|].
  apply after_create; [intros; accounts_tac | intros e st].
  apply (refusal_reports corpus_name _ e).
Qed.

Lemma delete_corpus_accounts (corpus_name : string) (confirm : bool) :
  accounts reports (delete_corpus be PROJECT_ID LOCATION corpus_name confirm).
Proof. apply (accounts_try reports); [accounts_tac|auto|intros; reports_tac]. Qed.

Lemma delete_document_accounts (corpus_name document_id : string) :
  accounts reports (delete_document be PROJECT_ID LOCATION corpus_name document_id).
Proof. apply (accounts_try reports); [accounts_tac|auto|intros; reports_tac]. Qed.

Lemma get_corpus_info_accounts (corpus_name : string) :
  accounts reports (get_corpus_info be PROJECT_ID LOCATION corpus_name).
Proof.
  apply (accounts_try reports); [|auto|intros; reports_tac].
  accounts_tac.
  apply (accounts_try never); [accounts_tac|intros ? ? []|intros; reports_tac].
Qed.

Lemma list_corpora_accounts :
  accounts reports (list_corpora be PROJECT_ID LOCATION).
Proof. apply (accounts_try reports); [accounts_tac|auto|intros; reports_tac]. Qed.

End Tools.

End ToolFacts.

(* ===================================================================== *)
(** * The claims *)

Module Claims.
Import Spec Logic LogicFacts UtilsFacts CanonicalFacts AddDataFacts FallbackFacts.
Import ToolFacts.

Section Generic.
Context {W : Type} (be : Backend W).
Variables PROJECT_ID LOCATION : string.

#[local] Abbreviation init_at := (init be PROJECT_ID LOCATION).
#[local] Abbreviation lookup := (lookup_display_name be PROJECT_ID LOCATION).
#[local] Abbreviation resolve := (get_corpus_resource_name be PROJECT_ID LOCATION).
#[local] Abbreviation check := (check_corpus_exists be PROJECT_ID LOCATION).
#[local] Abbreviation create := (create_corpus_if_not_exists be PROJECT_ID LOCATION).

(** C1.  Every tool, on every input and in every state, returns a result
    and raises nothing; the result has a [status] out of [success],
    [warning], [error], and a [message].  An exception raised by a call of
    the tool body or of the corpus creation step is reported: the status is
    [error] and the message holds the text.  (The exceptions of the lookups
    in the resolver and in the existence check, and of the fetch of the
    corpus details in [get_corpus_info], are dropped where they occur and
    are not covered.) *)
Theorem tools_report_surfaced (t : Tool) (st : St W) :
  exists d st' evs,
    run_tool be PROJECT_ID LOCATION t st = (inr d, st')
    /\ envelope d
    /\ added st st' evs
    /\ forall ev e, In ev evs -> surfaced ev = Some e -> reports d e.
Proof.
  assert (He : exists d, fst (run_tool be PROJECT_ID LOCATION t st) = inr d /\ envelope d).
  { destruct t; simpl;
      [ apply rag_query_envelope | apply add_data_envelope
      | apply delete_corpus_envelope | apply delete_document_envelope
      | apply get_corpus_info_envelope | apply list_corpora_envelope ]. }
  assert (Ha : accounts reports (run_tool be PROJECT_ID LOCATION t)).
  { destruct t; simpl;
      [ apply rag_query_accounts | apply add_data_accounts
      | apply delete_corpus_accounts | apply delete_document_accounts
      | apply get_corpus_info_accounts | apply list_corpora_accounts ]. }
  destruct (Ha st) as (evs & Hadd & Hrep). destruct He as (d & Hd & Henv).
  destruct (run_tool be PROJECT_ID LOCATION t st) as [r st']. simpl in *. subst r.
  exists d, st', evs. auto.
Qed.

(** C2.  An input of the form [projects/{P}/locations/{L}/ragCorpora/{ID}]
    is returned by the resolver as it is; the state is the same after
    the call as before it, so the world was not consulted and nothing
    was logged: no remote lookup, no rewriting. *)
Theorem resolver_keeps_canonical (P L ID : string) (st : St W) :
  segment P -> segment L -> segment ID ->
  resolve (canonical_path P L ID) st = (inr (canonical_path P L ID), st).
Proof.
  intros HP HL HID. apply resolver_canonical, canonical_iff.
  exists P, L, ID. auto.
Qed.

(** C3.  When [create_corpus_if_not_exists] returns success (its
    [success] is [True], or its [status] is ["success"]), the session
    flag [corpus_exists_<identifier>] is [True]; and in every later
    state of the session where the flag is still so, whatever the world
    has become, [check_corpus_exists] answers [True] and leaves the
    state, log included, as it found it: no remote call. *)
Theorem created_then_cached (corpus_name : string) (st st' : St W) (d : PyDict) :
  create corpus_name st = (inr d, st') ->
  Dict.get "success" d = Some (VBool true)
  \/ Dict.get "status" d = Some (VStr "success") ->
  session st' !! state_key corpus_name = Some true
  /\ forall st2 : St W,
       session st2 !! state_key corpus_name = session st' !! state_key corpus_name ->
       check corpus_name st2 = (inr true, st2).
Proof.
  intros Hrun Hok.
  assert (Hs : Dict.get "success" d = Some (VBool true)).
  { destruct Hok as [H|H]; [exact H|].
    destruct (create_cases be PROJECT_ID LOCATION _ _ _ _ Hrun)
      as [[= ->]|[(n & dn & [= ->])|(e & [= ->])]];
      try reflexivity; discriminate. }
  pose proof (create_flag be PROJECT_ID LOCATION _ _ _ _ Hrun Hs) as Hflag.
  split; [exact Hflag|].
  intros st2 H2. apply check_cached. now rewrite H2.
Qed.

(** C4.  Without confirmation [delete_corpus] returns the error result
    at once: the state after is the state before, so no call was made
    (world and log are the same) and the session store is untouched. *)
Theorem delete_needs_confirmation (corpus_name : string) (st : St W) :
  exists d,
    delete_corpus be PROJECT_ID LOCATION corpus_name false st = (inr d, st)
    /\ Dict.get "status" d = Some (VStr "error")
    /\ envelope d.
Proof.
  eexists. split; [reflexivity|]. split; [reflexivity|].
  eexists _, _. simpl. repeat split. unfold statuses. simpl. tauto.
Qed.

(** C5.  When [delete_corpus] returns success, the session store maps
    [corpus_exists_<identifier>] to [False]: the key is there, with a new
    value, and every other key is as it was when the tool was called.  (The
    key was there before the delete call was issued, set to [True], because
    the existence check had answered [True].) *)
Theorem delete_clears_flag (corpus_name : string) (confirm : bool)
    (st st' : St W) (d : PyDict) :
  delete_corpus be PROJECT_ID LOCATION corpus_name confirm st = (inr d, st') ->
  Dict.get "status" d = Some (VStr "success") ->
  session st' !! state_key corpus_name = Some false
  /\ forall key, key <> state_key corpus_name ->
       session st' !! key = session st !! key.
Proof.
  unfold delete_corpus, try_except.
  destruct confirm; simpl; [|dead].
  rewrite bind_run.
  pose proof (init_keeps be PROJECT_ID LOCATION AtTool st) as K1.
  destruct (init_at AtTool st) as [[e|[]] st1]; simpl in K1 |- *; [dead|].
  rewrite bind_run.
  pose proof (check_flag be PROJECT_ID LOCATION corpus_name st1) as Hc.
  destruct (check corpus_name st1) as [rb st2].
  specialize (Hc st2 rb eq_refl).
  destruct rb as [e|[|]]; simpl; [dead| |dead].
  destruct Hc as [Hflag Hrest].
  rewrite bind_run.
  pose proof (resolver_keeps be PROJECT_ID LOCATION corpus_name st2) as K3.
  destruct (resolve corpus_name st2) as [[e|resource] st3]; simpl in K3 |- *; [dead|].
  rewrite bind_run.
  pose proof (keeps_call AtTool (CDeleteCorpus resource)
                (rag_delete_corpus be resource) st3) as K4.
  destruct (call AtTool (CDeleteCorpus resource) (rag_delete_corpus be resource) st3)
    as [[e|[]] st4]; simpl in K4 |- *; [dead|].
  rewrite bind_run. unfold state_has. simpl.
  rewrite K4, K3, Hflag. simpl.
  intros [= <- <-] _. simpl. split; [apply lookup_insert_eq|].
  intros key Hk. rewrite lookup_insert_ne by congruence.
  rewrite K4, K3, <- K1. now apply Hrest.
Qed.

(** C6.  When the initialisation succeeds and the creation step of
    [rag_query] reports [was_created = True], the tool returns the warning
    result with [results = []] and [results_count = 0], in the state the
    creation step left; none of the calls logged since the start of the
    tool is a retrieval query. *)
Theorem query_on_created_corpus (corpus_name query : string)
    (st st1 st2 : St W) (d : PyDict) :
  init_at AtTool st = (inr tt, st1) ->
  create corpus_name st1 = (inr d, st2) ->
  Dict.get "was_created" d = Some (VBool true) ->
  exists message evs,
    rag_query be PROJECT_ID LOCATION corpus_name query st
    = (inr [("status", VStr "warning");
            ("message", VStr message);
            ("query", VStr query);
            ("corpus_name", VStr corpus_name);
            ("results", VList []);
            ("results_count", VInt 0)], st2)
    /\ added st st2 evs
    /\ Forall (fun ev => is_retrieval (ev_call ev) = false) evs.
Proof.
  intros Hinit Hcreate Hwas.
  destruct (init_emits be PROJECT_ID LOCATION
              (fun ev => is_retrieval (ev_call ev) = false) AtTool
              (fun _ => eq_refl) st) as (evs1 & A1 & F1).
  destruct (create_emits be PROJECT_ID LOCATION corpus_name st1) as (evs2 & A2 & F2).
  rewrite Hinit in A1. rewrite Hcreate in A2. simpl in A1, A2.
  eexists _, (evs1 ++ evs2)%list. split; [|split].
  - unfold rag_query, try_except. rewrite bind_run, Hinit.
    rewrite bind_run, Hcreate.
    destruct (create_cases be PROJECT_ID LOCATION _ _ _ _ Hcreate)
      as [[= ->]|[(n & dn & [= ->])|(e & [= ->])]]; try discriminate.
    reflexivity.
  - eapply added_trans; eassumption.
  - apply Forall_app. split; [exact F1|].
    eapply List.Forall_impl; [|exact F2]. apply helper_not_retrieval.
Qed.

(** C7.  The loop of [add_data] on the example list: the Docs link is
    rewritten to [https://drive.google.com/file/d/ABC123/view] and joins the
    validated paths, with the pair recorded in [conversions]; the [gs://]
    path is validated as it is; ["not-a-path"] goes to [invalid_paths].
    Whenever [add_data] then returns success, its result carries these
    three values, the [conversions] dictionary being non-empty. *)
Theorem add_data_example (corpus_name : string) (st st' : St W) (d : PyDict) :
  add_data be PROJECT_ID LOCATION corpus_name example_paths st = (inr d, st') ->
  Dict.get "status" d = Some (VStr "success") ->
  sort_paths example_paths
  = {| validated_paths := [example_drive; "gs://bucket/x"];
       invalid_paths := ["not-a-path"];
       conversions := [(example_doc, VStr example_drive)] |}
  /\ Dict.get "paths" d = Some (strs [example_drive; "gs://bucket/x"])
  /\ Dict.get "invalid_paths" d = Some (strs ["not-a-path"])
  /\ Dict.get "conversions" d = Some (VDict [(example_doc, VStr example_drive)])
  /\ Dict.truthy (VDict [(example_doc, VStr example_drive)]) = true.
Proof.
  assert (Hsort : sort_paths example_paths
                  = {| validated_paths := [example_drive; "gs://bucket/x"];
                       invalid_paths := ["not-a-path"];
                       conversions := [(example_doc, VStr example_drive)] |})
    by reflexivity.
  unfold add_data, try_except. rewrite Hsort. cbn [validated_paths invalid_paths conversions].
  rewrite bind_run.
  destruct (init_at AtTool st) as [[e|[]] st1]; simpl; [dead|].
  rewrite bind_run.
  destruct (create corpus_name st1) as [[e|corpus_result] st2]; simpl; [dead|].
  rewrite bind_run. unfold getitem.
  destruct (Dict.get "success" corpus_result) as [success|]; simpl; [|dead].
  destruct (Dict.truthy success); simpl.
  - rewrite bind_run.
    destruct (resolve corpus_name st2) as [[e|resource] st3]; simpl; [dead|].
    rewrite bind_run.
    match goal with |- context [call ?s ?c ?f st3] =>
      destruct (call s c f st3) as [[e|import_result] st4] end; simpl; [dead|].
    intros [= <- <-] _. repeat split.
  - rewrite bind_run.
    destruct (Dict.get "message" corpus_result) as [message|]; simpl; dead.
Qed.

(** C8.  When no path of the list validates, [add_data] returns an error
    result that holds the list of the invalid paths, which is the whole
    input list: under [invalid_paths] when the initialisation went
    through, under [paths] when it raised.  The one call logged is the
    initialisation (no creation, no import), and the session store is as
    it was. *)
Theorem add_data_without_valid_path (corpus_name : string) (paths : list string)
    (st : St W) :
  Forall (fun path => validates path = false) paths ->
  exists d st' ev,
    add_data be PROJECT_ID LOCATION corpus_name paths st = (inr d, st')
    /\ Dict.get "status" d = Some (VStr "error")
    /\ invalid_paths (sort_paths paths) = paths
    /\ (Dict.get "invalid_paths" d = Some (strs paths)
        \/ Dict.get "paths" d = Some (strs paths))
    /\ (ev_raised ev = None -> Dict.get "invalid_paths" d = Some (strs paths))
    /\ session st' = session st
    /\ added st st' [ev]
    /\ ev_call ev = CInit PROJECT_ID LOCATION.
Proof.
  intros Hinv. pose proof (sort_paths_invalid paths Hinv) as Hsort.
  unfold add_data, try_except. rewrite Hsort. cbn [validated_paths invalid_paths].
  rewrite bind_run. unfold init, call.
  destruct (vertexai_init be PROJECT_ID LOCATION (world st)) as [[e|[]] w1]; simpl.
  - eexists _, _, _. split; [reflexivity|]. simpl.
    repeat split; auto. discriminate.
  - eexists _, _, _. split; [reflexivity|]. simpl.
    repeat split; auto.
Qed.

(** C9.  When the input is not canonical and the lookup by display name
    gives nothing, the resolver returns the path built from the fallback
    identifier.  That identifier is the last segment of the input (what
    follows the last ['/'], or the whole input when there is none) with
    each character outside [[a-zA-Z0-9_-]] replaced by ['_'], position by
    position; all its characters are in [[a-zA-Z0-9_-]]. *)
Theorem fallback_identifier (corpus_name : string) (st : St W) :
  Re.fullmatch CANONICAL corpus_name = false ->
  fst (lookup corpus_name st) = inr None ->
  fst (resolve corpus_name st)
  = inr (canonical_path PROJECT_ID LOCATION (fallback_corpus_id corpus_name))
  /\ (exists before,
        corpus_name = before ++ last_segment corpus_name
        /\ (before = "" \/ last_char before = Some "/"%char)
        /\ Str.all Re.not_slash (last_segment corpus_name) = true)
  /\ (forall i,
        String.get i (fallback_corpus_id corpus_name)
        = option_map (fun c => if Re.id_char c then c else "_"%char)
            (String.get i (last_segment corpus_name)))
  /\ Str.all Re.id_char (fallback_corpus_id corpus_name) = true.
Proof.
  intros Hc Hl. split; [|split; [|split]].
  - now rewrite (resolver_fallback be PROJECT_ID LOCATION _ _ Hc Hl).
  - apply last_segment_spec.
  - intros i. apply StrFacts.map_get.
  - apply ReFacts.sub_non_id_chars.
Qed.

(** C10.  With a project and a location that are path segments (not
    empty, no slash): when the last segment of the input is not empty, the
    path the fallback builds is canonical, and the resolver returns it
    unchanged, without a lookup.  When the last segment is empty, the path
    built ends in [ragCorpora/] and is not canonical; resolving it again
    goes through the lookup, and when that gives nothing the fallback
    builds the same path once more: it is a fixed point all the same. *)
Theorem fallback_resolved_again (corpus_name : string) :
  segment PROJECT_ID -> segment LOCATION ->
  let path := canonical_path PROJECT_ID LOCATION (fallback_corpus_id corpus_name) in
  (last_segment corpus_name <> "" ->
     canonical path /\ forall st : St W, resolve path st = (inr path, st))
  /\ (last_segment corpus_name = "" ->
       path = canonical_path PROJECT_ID LOCATION ""
       /\ ~ canonical path
       /\ forall st : St W,
            fst (lookup path st) = inr None ->
            fixed_point be PROJECT_ID LOCATION st path).
Proof.
  intros HP HL path. subst path. split.
  - intros Hn.
    assert (Hcan : canonical (canonical_path PROJECT_ID LOCATION
                                (fallback_corpus_id corpus_name))).
    { exists PROJECT_ID, LOCATION, (fallback_corpus_id corpus_name).
      repeat split; try apply HP; try apply HL; now apply fallback_segment. }
    split; [exact Hcan|].
    intros st. now apply resolver_canonical, canonical_iff.
  - intros He.
    assert (Hid : fallback_corpus_id corpus_name = "")
      by (unfold fallback_corpus_id; now rewrite He).
    rewrite Hid.
    assert (Hnot : ~ canonical (canonical_path PROJECT_ID LOCATION "")).
    { intros H. apply canonical_last_char in H. apply H, path_without_id. }
    split; [reflexivity|]. split; [exact Hnot|].
    intros st Hl. unfold fixed_point.
    rewrite (resolver_fallback be PROJECT_ID LOCATION _ _
               (proj1 (not_canonical _) Hnot) Hl).
    simpl. now rewrite (fallback_of_trailing_slash _ (path_without_id _ _)).
Qed.

End Generic.

Lemma resolver_keeps_canonical_witness :
  get_corpus_resource_name Service.memory DEFAULT_PROJECT_ID DEFAULT_LOCATION
    "projects/demo/locations/us-central1/ragCorpora/7" (Service.fresh [])
  = (inr "projects/demo/locations/us-central1/ragCorpora/7", Service.fresh []).
Proof.
  apply (resolver_keeps_canonical Service.memory DEFAULT_PROJECT_ID DEFAULT_LOCATION
           "demo" "us-central1" "7");
    (split; [discriminate | reflexivity]).
Defined.

Lemma created_then_cached_witness :
  let run := create_corpus_if_not_exists Service.memory DEFAULT_PROJECT_ID
               DEFAULT_LOCATION "notes" (Service.fresh []) in
  session (snd run) !! state_key "notes" = Some true
  /\ check_corpus_exists Service.memory DEFAULT_PROJECT_ID DEFAULT_LOCATION
       "notes" (snd run) = (inr true, snd run).
Proof.
  intros run.
  destruct (created_then_cached Service.memory DEFAULT_PROJECT_ID DEFAULT_LOCATION
              "notes" (Service.fresh []) (snd run)
              (created "notes" "projects/demo/locations/us-central1/ragCorpora/0" "notes"))
    as [Hflag Hcheck].
  - vm_compute. reflexivity.
  - left. reflexivity.
  - split; [exact Hflag | apply Hcheck; reflexivity].
Defined.

Lemma delete_clears_flag_witness :
  let st' := snd (delete_corpus Service.memory DEFAULT_PROJECT_ID DEFAULT_LOCATION
                    "docs" true (Service.fresh [Service.docs])) in
  session st' !! state_key "docs" = Some false
  /\ forall key, key <> state_key "docs" ->
       session st' !! key = session (Service.fresh [Service.docs]) !! key.
Proof.
  intros st'.
  apply (delete_clears_flag Service.memory DEFAULT_PROJECT_ID DEFAULT_LOCATION
           "docs" true (Service.fresh [Service.docs]) _
           [("status", VStr "success");
            ("message", VStr "Successfully deleted corpus 'docs'");
            ("corpus_name", VStr "docs")]).
  - vm_compute. reflexivity.
  - reflexivity.
Defined.

Lemma query_on_created_corpus_witness :
  exists message evs,
    rag_query Service.memory DEFAULT_PROJECT_ID DEFAULT_LOCATION "notes" "what is new?"
      (Service.fresh [])
    = (inr [("status", VStr "warning");
            ("message", VStr message);
            ("query", VStr "what is new?");
            ("corpus_name", VStr "notes");
            ("results", VList []);
            ("results_count", VInt 0)],
       snd (rag_query Service.memory DEFAULT_PROJECT_ID DEFAULT_LOCATION "notes"
              "what is new?" (Service.fresh [])))
    /\ added (Service.fresh [])
         (snd (rag_query Service.memory DEFAULT_PROJECT_ID DEFAULT_LOCATION "notes"
                 "what is new?" (Service.fresh []))) evs
    /\ Forall (fun ev => is_retrieval (ev_call ev) = false) evs.
Proof.
  apply (query_on_created_corpus Service.memory DEFAULT_PROJECT_ID DEFAULT_LOCATION
           "notes" "what is new?" (Service.fresh [])
           (snd (init Service.memory DEFAULT_PROJECT_ID DEFAULT_LOCATION AtTool
                   (Service.fresh [])))
           _
           (created "notes" "projects/demo/locations/us-central1/ragCorpora/0" "notes")).
  - vm_compute. reflexivity.
  - vm_compute. reflexivity.
  - reflexivity.
Defined.

Lemma add_data_example_witness :
  let d := [("status", VStr "success");
            ("message", VStr "Successfully added 2 file(s) to corpus 'docs' (Converted Google Docs URLs to Drive format)");
            ("corpus_name", VStr "docs");
            ("corpus_created", VBool false);
            ("files_added", VInt 2);
            ("paths", strs [example_drive; "gs://bucket/x"]);
            ("invalid_paths", strs ["not-a-path"]);
            ("conversions", VDict [(example_doc, VStr example_drive)])] in
  fst (add_data Service.memory DEFAULT_PROJECT_ID DEFAULT_LOCATION "docs" example_paths
         (Service.fresh [Service.docs])) = inr d
  /\ Dict.get "conversions" d = Some (VDict [(example_doc, VStr example_drive)]).
Proof.
  intros d. split; [vm_compute; reflexivity|].
  apply (add_data_example Service.memory DEFAULT_PROJECT_ID DEFAULT_LOCATION "docs"
           (Service.fresh [Service.docs])
           (snd (add_data Service.memory DEFAULT_PROJECT_ID DEFAULT_LOCATION "docs"
                   example_paths (Service.fresh [Service.docs])))
           d).
  - vm_compute. reflexivity.
  - reflexivity.
Defined.

Lemma add_data_without_valid_path_witness :
  let paths := ["not-a-path"; "https://docs.google.com/spreadsheets"] in
  exists d st' ev,
    add_data Service.memory DEFAULT_PROJECT_ID DEFAULT_LOCATION "docs" paths
      (Service.fresh []) = (inr d, st')
    /\ Dict.get "status" d = Some (VStr "error")
    /\ invalid_paths (sort_paths paths) = paths
    /\ (Dict.get "invalid_paths" d = Some (strs paths)
        \/ Dict.get "paths" d = Some (strs paths))
    /\ (ev_raised ev = None -> Dict.get "invalid_paths" d = Some (strs paths))
    /\ session st' = session (Service.fresh [] : St (list RagCorpus))
    /\ added (Service.fresh []) st' [ev]
    /\ ev_call ev = CInit DEFAULT_PROJECT_ID DEFAULT_LOCATION.
Proof.
  intros paths.
  apply (add_data_without_valid_path Service.memory DEFAULT_PROJECT_ID
           DEFAULT_LOCATION "docs" paths (Service.fresh [])).
  repeat constructor.
Defined.

Lemma fallback_identifier_witness :
  fst (get_corpus_resource_name Service.memory DEFAULT_PROJECT_ID DEFAULT_LOCATION
         "team/my notes!" (Service.fresh []))
  = inr "projects/adk-vertexai-rag/locations/us-central1/ragCorpora/my_notes_"
  /\ Str.all Re.id_char (fallback_corpus_id "team/my notes!") = true.
Proof.
  destruct (fallback_identifier Service.memory DEFAULT_PROJECT_ID DEFAULT_LOCATION
              "team/my notes!" (Service.fresh [])) as (Hr & _ & _ & Hc).
  - reflexivity.
  - reflexivity.
  - split; [exact Hr | exact Hc].
Defined.

Lemma fallback_resolved_again_witness :
  (forall st : St (list RagCorpus),
     get_corpus_resource_name Service.memory DEFAULT_PROJECT_ID DEFAULT_LOCATION
       "projects/adk-vertexai-rag/locations/us-central1/ragCorpora/my_notes_" st
     = (inr "projects/adk-vertexai-rag/locations/us-central1/ragCorpora/my_notes_", st))
  /\ ~ canonical "projects/adk-vertexai-rag/locations/us-central1/ragCorpora/".
Proof.
  assert (HP : segment DEFAULT_PROJECT_ID) by (split; [discriminate | reflexivity]).
  assert (HL : segment DEFAULT_LOCATION) by (split; [discriminate | reflexivity]).
  split.
  - apply (fallback_resolved_again Service.memory DEFAULT_PROJECT_ID DEFAULT_LOCATION
             "team/my notes!" HP HL). discriminate.
  - apply (fallback_resolved_again Service.memory DEFAULT_PROJECT_ID DEFAULT_LOCATION
             "team/" HP HL). reflexivity.
Defined.

(** C10, as stated, fails on the input ["team/"]: its last segment is
    empty, the path built for it is [.../ragCorpora/], and on a service
    without corpora the resolver maps that path to itself. *)
Lemma trailing_slash_is_fixed_point :
  last_segment "team/" = ""
  /\ fst (get_corpus_resource_name Service.memory DEFAULT_PROJECT_ID DEFAULT_LOCATION
            "team/" (Service.fresh []))
     = inr "projects/adk-vertexai-rag/locations/us-central1/ragCorpora/"
  /\ ~ ~ fixed_point Service.memory DEFAULT_PROJECT_ID DEFAULT_LOCATION (Service.fresh [])
          "projects/adk-vertexai-rag/locations/us-central1/ragCorpora/".
Proof.
  split; [reflexivity|]. split; [reflexivity|].
  intros H. apply H. reflexivity.
Qed.

(** The condition on the configuration in C10 is needed: with an empty
    project (the variable set, but to nothing) the path built for
    ["notes"] is not canonical. *)
Lemma empty_project_not_canonical :
  fst (get_corpus_resource_name Service.memory "" DEFAULT_LOCATION "notes"
         (Service.fresh []))
  = inr "projects//locations/us-central1/ragCorpora/notes"
  /\ Re.fullmatch CANONICAL "projects//locations/us-central1/ragCorpora/notes" = false.
Proof. split; reflexivity. Qed.

(** C1, as stated, fails for [rag_query] on a service whose listing is
    broken: [list_corpora] raises in the resolver and in the existence
    check, both times the exception is dropped, the corpus is created, and
    the tool returns a warning, not an error. *)
Lemma dropped_listing_failure :
  ~ reports_every_raise Service.no_listing DEFAULT_PROJECT_ID DEFAULT_LOCATION
      (RagQuery "notes" "what is new?") (Service.fresh []).
Proof.
  intros H.
  pose (st' := snd (run_tool Service.no_listing DEFAULT_PROJECT_ID DEFAULT_LOCATION
                      (RagQuery "notes" "what is new?") (Service.fresh []))).
  pose (ev := {| ev_site := AtExists; ev_call := CListCorpora;
                 ev_raised := Some "503 listing unavailable" |}).
  assert (Hin : In ev (log st')) by (vm_compute; tauto).
  destruct (H [("status", VStr "warning");
               ("message", VStr "Created a new corpus 'notes', but it doesn't contain any data yet. Please add data to the corpus before querying.");
               ("query", VStr "what is new?");
               ("corpus_name", VStr "notes");
               ("results", VList []);
               ("results_count", VInt 0)]
              st' (log st')) with (ev := ev) (e := "503 listing unavailable")
    as [Hstatus _]; try reflexivity; try exact Hin.
  discriminate Hstatus.
Qed.

End Claims.

(* ===================================================================== *)
(** * Further properties of the code *)

(** ** [add_data.py]: what the validation loop keeps and drops *)

Module SortFacts.
Import Spec Shape StrFacts AddDataFacts.

Lemma prefix_nil (s : string) : String.prefix "" s = true.
Proof. now destruct s. Qed.

Lemma prefix_app (p s : string) : String.prefix p (p ++ s) = true.
Proof.
  induction p as [|c p IH]; simpl; [apply prefix_nil|].
  destruct (ascii_dec c c); [exact IH | contradiction].
Qed.

Lemma contains_eq (needle hay : string) :
  Str.contains needle hay
  = (String.prefix needle hay
     || match hay with
        | EmptyString => false
        | String _ rest => Str.contains needle rest
        end).
Proof. now destruct hay. Qed.

Lemma contains_app (needle before after : string) :
  Str.contains needle (before ++ needle ++ after) = true.
Proof.
  induction before as [|c before IH]; simpl.
  - now rewrite contains_eq, prefix_app.
  - rewrite IH. apply orb_true_r.
Qed.

Lemma drive_url_accepted (file_id : string) : accepted (drive_url file_id) = true.
Proof.
  unfold accepted, drive_url.
  replace ("https://drive.google.com/file/d/" ++ file_id ++ "/view")
    with ("https://" ++ "drive.google.com/file/d/" ++ file_id ++ "/view")
    by reflexivity.
  now rewrite contains_app.
Qed.

Lemma validates_accepted (path : string) : accepted path = true -> validates path = true.
Proof. unfold accepted, validates. intros ->. reflexivity. Qed.

(** One turn of the loop, by the shape of the path. *)
Lemma sort_path_accepted (acc : Sorted) (path : string) :
  accepted path = true ->
  sort_path acc path
  = {| validated_paths := (validated_paths acc ++ [path])%list;
       invalid_paths := invalid_paths acc;
       conversions := conversions acc |}.
Proof.
  unfold accepted, sort_path. intros H.
  destruct (Str.contains "drive.google.com/file/d/" path); [reflexivity|].
  simpl in H. now rewrite H.
Qed.

Lemma sort_path_converted (acc : Sorted) (path url : string) :
  converted path = Some url ->
  sort_path acc path
  = {| validated_paths := (validated_paths acc ++ [url])%list;
       invalid_paths := invalid_paths acc;
       conversions := Dict.set path (VStr url) (conversions acc) |}.
Proof.
  unfold converted, accepted, sort_path.
  destruct (Str.contains "drive.google.com/file/d/" path); [discriminate|].
  destruct (Str.startswith "gs://" path); [discriminate|]. simpl.
  destruct (Str.contains "docs.google.com" path); [|discriminate].
  destruct (Re.search_d_id path); [|discriminate].
  now intros [= <-].
Qed.

Lemma validates_cases (path : string) :
  validates path = (accepted path || match converted path with
                                     | Some _ => true
                                     | None => false
                                     end).
Proof.
  unfold validates, converted, accepted.
  destruct (Str.contains "drive.google.com/file/d/" path); [reflexivity|].
  destruct (Str.startswith "gs://" path); [reflexivity|]. simpl.
  destruct (Str.contains "docs.google.com" path); [|reflexivity].
  now destruct (Re.search_d_id path).
Qed.

Lemma fold_sort_accepted (paths : list string) (acc : Sorted) :
  Forall (fun path => accepted path = true) (validated_paths acc) ->
  Forall (fun path => accepted path = true)
         (validated_paths (List.fold_left sort_path paths acc)).
Proof.
  revert acc. induction paths as [|path paths IH]; intros acc Hacc; [exact Hacc|].
  simpl. apply IH.
  destruct (accepted path) eqn:Ea.
  - rewrite (sort_path_accepted _ _ Ea). simpl. apply Forall_app. now repeat constructor.
  - destruct (converted path) as [url|] eqn:Ec.
    + rewrite (sort_path_converted _ _ _ Ec). simpl. apply Forall_app.
      split; [exact Hacc|]. repeat constructor.
      unfold converted in Ec. rewrite Ea in Ec.
      destruct (Str.contains "docs.google.com" path); [|discriminate].
      destruct (Re.search_d_id path); [|discriminate].
      injection Ec as <-. apply drive_url_accepted.
    + rewrite sort_path_invalid; [exact Hacc|].
      rewrite validates_cases, Ea, Ec. reflexivity.
Qed.

Lemma fold_sort_invalid_filter (paths : list string) (acc : Sorted) :
  invalid_paths (List.fold_left sort_path paths acc)
  = (invalid_paths acc ++ List.filter (fun path => negb (validates path)) paths)%list.
Proof.
  revert acc. induction paths as [|path paths IH]; intros acc; simpl.
  - now rewrite app_nil_r.
  - rewrite IH. destruct (validates path) eqn:Ev; simpl.
    + f_equal. rewrite validates_cases in Ev.
      destruct (accepted path) eqn:Ea; [now rewrite (sort_path_accepted _ _ Ea)|].
      destruct (converted path) as [url|] eqn:Ec; [|discriminate].
      now rewrite (sort_path_converted _ _ _ Ec).
    + rewrite (sort_path_invalid _ _ Ev). simpl. now rewrite <- app_assoc.
Qed.

Lemma fold_sort_all_accepted (paths : list string) (acc : Sorted) :
  Forall (fun path => accepted path = true) paths ->
  List.fold_left sort_path paths acc
  = {| validated_paths := (validated_paths acc ++ paths)%list;
       invalid_paths := invalid_paths acc;
       conversions := conversions acc |}.
Proof.
  intros H. revert acc. induction H as [|path paths Hp _ IH]; intros acc; simpl.
  - rewrite app_nil_r. now destruct acc.
  - rewrite IH, (sort_path_accepted _ _ Hp). simpl. now rewrite <- app_assoc.
Qed.

Lemma sorted_all_accepted (paths : list string) :
  Forall (fun path => accepted path = true) (validated_paths (sort_paths paths)).
Proof. unfold sort_paths. apply fold_sort_accepted. constructor. Qed.

End SortFacts.

(** ** [add_data.py]: the document id of a Docs link *)

Module SearchFacts.
Import Spec Shape StrFacts SortFacts.

Lemma search_eq (s : string) :
  Re.search_d_id s
  = match (if String.prefix "/d/" s
           then match fst (Str.span Re.id_char
                             (String.substring 3 (String.length s - 3) s)) with
                | EmptyString => None
                | String c id => Some (String c id)
                end
           else None) with
    | Some id => Some id
    | None => match s with
              | EmptyString => None
              | String _ rest => Re.search_d_id rest
              end
    end.
Proof. now destruct s. Qed.

Lemma prefix_true (p s : string) :
  String.prefix p s = true -> exists rest, s = p ++ rest.
Proof.
  revert s. induction p as [|c p IH]; intros s.
  - intros _. now exists s.
  - destruct s as [|a s]; simpl; [discriminate|].
    destruct (ascii_dec c a) as [->|]; [|discriminate].
    intros H. destruct (IH s H) as (rest & ->). now exists rest.
Qed.

Lemma substring_all (s : string) : String.substring 0 (String.length s) s = s.
Proof. induction s as [|c s IH]; simpl; [reflexivity | now rewrite IH]. Qed.

Lemma after_d (rest : string) :
  String.substring 3 (String.length ("/d/" ++ rest) - 3) ("/d/" ++ rest) = rest.
Proof. simpl. rewrite Nat.sub_0_r. apply substring_all. Qed.

Lemma span_spec (p : ascii -> bool) (s : string) :
  s = fst (Str.span p s) ++ snd (Str.span p s)
  /\ Str.all p (fst (Str.span p s)) = true
  /\ match snd (Str.span p s) with
     | EmptyString => True
     | String c _ => p c = false
     end.
Proof.
  induction s as [|c s IH]; simpl; [auto|].
  destruct (p c) eqn:E.
  - destruct (Str.span p s) as [a b]. simpl in *.
    destruct IH as (-> & Ha & Hb). rewrite E, Ha. auto.
  - simpl. auto.
Qed.

(** What is found at the head of a string that starts with ["/d/"]. *)
Lemma found_here (rest c id : string) (a : ascii) :
  fst (Str.span Re.id_char rest) = String a id ->
  exists after,
    rest = String a id ++ after
    /\ Str.all Re.id_char (String a id) = true
    /\ starts_with_id_char after = false.
Proof.
  intros E. destruct (span_spec Re.id_char rest) as (Hs & Ha & Hb).
  rewrite E in Hs, Ha. exists (snd (Str.span Re.id_char rest)).
  split; [exact Hs|]. split; [exact Ha|].
  destruct (snd (Str.span Re.id_char rest)); [reflexivity | exact Hb].
Qed.

End SearchFacts.

(** ** [add_data.py]: the conversions recorded *)

Module ConversionFacts.
Import Spec Shape StrFacts AddDataFacts SortFacts.

Lemma get_set_eq (k : string) (v : PyVal) (d : PyDict) :
  Dict.get k (Dict.set k v d) = Some v.
Proof.
  induction d as [|[k' v'] d IH]; simpl.
  - now rewrite String.eqb_refl.
  - destruct (String.eqb k k') eqn:E; simpl.
    + now rewrite String.eqb_refl.
    + now rewrite E.
Qed.

Lemma get_set_ne (k k' : string) (v : PyVal) (d : PyDict) :
  k <> k' -> Dict.get k (Dict.set k' v d) = Dict.get k d.
Proof.
  intros Hne. apply String.eqb_neq in Hne.
  induction d as [|[k2 v2] d IH]; simpl.
  - now rewrite Hne.
  - destruct (String.eqb k' k2) eqn:E; simpl.
    + apply String.eqb_eq in E as <-. now rewrite Hne.
    + now rewrite IH.
Qed.

Lemma conversions_step (acc : Sorted) (path : string) :
  conversions (sort_path acc path)
  = match converted path with
    | Some url => Dict.set path (VStr url) (conversions acc)
    | None => conversions acc
    end.
Proof.
  destruct (converted path) as [url|] eqn:Ec.
  - now rewrite (sort_path_converted _ _ _ Ec).
  - destruct (accepted path) eqn:Ea; [now rewrite (sort_path_accepted _ _ Ea)|].
    rewrite sort_path_invalid; [reflexivity|].
    now rewrite validates_cases, Ea, Ec.
Qed.

Lemma fold_conversions (paths : list string) (acc : Sorted) (path : string) :
  Dict.get path (conversions (List.fold_left sort_path paths acc))
  = if List.existsb (String.eqb path) paths
    then match converted path with
         | Some url => Some (VStr url)
         | None => Dict.get path (conversions acc)
         end
    else Dict.get path (conversions acc).
Proof.
  revert acc. induction paths as [|q paths IH]; intros acc; simpl; [reflexivity|].
  rewrite IH, conversions_step.
  destruct (String.eqb_spec path q) as [<-|Hne]; simpl.
  - destruct (converted path) as [url|]; [|now destruct (List.existsb _ paths)].
    rewrite get_set_eq. now destruct (List.existsb _ paths).
  - destruct (converted q) as [url|]; [|reflexivity].
    now rewrite (get_set_ne _ _ _ _ Hne).
Qed.

End ConversionFacts.

(** ** The session store under the tools *)

Module FrameFacts.
Import Spec Logic LogicFacts UtilsFacts Frame.

Section Generic.
Context {W : Type}.

Lemma keeps_state_has (key : string) : keeps_session (state_has key : M W _).
Proof. intros st. reflexivity. Qed.

Lemma keeps_getattr {A} (cls attr : string) (o : option A) :
  keeps_session (getattr cls attr o : M W A).
Proof. destruct o; [apply keeps_ret | apply keeps_raise]. Qed.

Lemma keeps_getitem (k : string) (d : PyDict) : keeps_session (getitem k d : M W PyVal).
Proof. unfold getitem. destruct (Dict.get k d); [apply keeps_ret | apply keeps_raise]. Qed.

Lemma confined_of_keeps {A} (n : string) (m : M W A) : keeps_session m -> confined n m.
Proof. intros H st. specialize (H st). split; [intros; now rewrite H | now rewrite H]. Qed.

Lemma confined_bind {A B} (n : string) (m : M W A) (k : A -> M W B) :
  confined n m -> (forall a, confined n (k a)) -> confined n (m ≫= k).
Proof.
  intros Hm Hk st. destruct (Hm st) as [H1 H2]. rewrite bind_run.
  destruct (m st) as [[e|a] st1]; simpl in *; [auto|].
  destruct (Hk a st1) as [H3 H4]. split.
  - intros key Hne. now rewrite H3, H1.
  - auto.
Qed.

Lemma confined_try {A} (n : string) (m : M W A) (h : Exc -> M W A) :
  confined n m -> (forall e, confined n (h e)) -> confined n (try_except m h).
Proof.
  intros Hm Hh st. destruct (Hm st) as [H1 H2]. unfold try_except.
  destruct (m st) as [[e|a] st1]; simpl in *; [|auto].
  destruct (Hh e st1) as [H3 H4]. split.
  - intros key Hne. now rewrite H3, H1.
  - auto.
Qed.

Lemma confined_state_set (n : string) (b : bool) :
  confined n (state_set (state_key n) b : M W unit).
Proof.
  intros st. simpl. split.
  - intros key Hne. now apply lookup_insert_ne.
  - intros _. rewrite lookup_insert_eq. eauto.
Qed.

Lemma true_of_keeps {A} (n : string) (m : M W A) : keeps_session m -> keeps_true n m.
Proof. intros H st. now rewrite H. Qed.

Lemma true_bind {A B} (n : string) (m : M W A) (k : A -> M W B) :
  keeps_true n m -> (forall a, keeps_true n (k a)) -> keeps_true n (m ≫= k).
Proof.
  intros Hm Hk st Ht. specialize (Hm st Ht). rewrite bind_run.
  destruct (m st) as [[e|a] st1]; simpl in *; [exact Hm|]. now apply Hk.
Qed.

Lemma true_try {A} (n : string) (m : M W A) (h : Exc -> M W A) :
  keeps_true n m -> (forall e, keeps_true n (h e)) -> keeps_true n (try_except m h).
Proof.
  intros Hm Hh st Ht. specialize (Hm st Ht). unfold try_except.
  destruct (m st) as [[e|a] st1]; simpl in *; [|exact Hm]. now apply Hh.
Qed.

Lemma true_state_set (n : string) :
  keeps_true n (state_set (state_key n) true : M W unit).
Proof. intros st _. simpl. apply lookup_insert_eq. Qed.

End Generic.

Section Tools.
Context {W : Type} (be : Backend W).
Variables PROJECT_ID LOCATION : string.

#[local] Abbreviation check := (check_corpus_exists be PROJECT_ID LOCATION).
#[local] Abbreviation create := (create_corpus_if_not_exists be PROJECT_ID LOCATION).

Lemma corpus_infos_keeps (corpora : list RagCorpus) :
  keeps_session (corpus_infos corpora : M W (list PyVal)).
Proof.
  induction corpora as [|corpus rest IH]; simpl; [apply keeps_ret|].
  apply keeps_bind; [apply keeps_getattr | intros d].
  apply keeps_bind; [exact IH | intros; apply keeps_ret].
Qed.

Lemma resolver_sites (n : string) :
  emits (fun ev => ev_site ev = AtResolver)
        (get_corpus_resource_name be PROJECT_ID LOCATION n).
Proof.
  unfold get_corpus_resource_name.
  destruct (Re.fullmatch CANONICAL n); [apply emits_ret|].
  apply emits_bind; [|intros [name|]; apply emits_ret].
  apply emits_try; [|intros; apply emits_ret].
  apply emits_bind; [now apply emits_call | intros _].
  apply emits_bind; [now apply emits_call | intros; apply emits_ret].
Qed.

Lemma exists_loop_silent (n resource : string) (corpora : list RagCorpus) (st : St W) :
  log (snd (exists_loop n resource corpora st)) = log st.
Proof.
  destruct (exists_loop_emits (fun _ => False) n resource corpora st) as (evs & H & F).
  destruct evs as [|ev evs]; [|now inversion F].
  unfold added in H. now rewrite app_nil_r in H.
Qed.

Lemma check_confined (n : string) : confined n (check n).
Proof.
  intros st. pose proof (check_flag be PROJECT_ID LOCATION n st) as H.
  destruct (check n st) as [r st1]. specialize (H st1 r eq_refl). simpl.
  destruct r as [e|[|]]; try (rewrite H; now auto).
  destruct H as [H1 H2]. split; [exact H2 | intros _; rewrite H1; eauto].
Qed.

Lemma check_keeps_true (n : string) : keeps_true n (check n).
Proof.
  intros st Ht. pose proof (check_flag be PROJECT_ID LOCATION n st) as H.
  destruct (check n st) as [r st1]. specialize (H st1 r eq_refl). simpl.
  destruct r as [e|[|]]; try (now rewrite H). apply H.
Qed.

Ltac keeps_tac :=
  first [ apply keeps_ret | apply keeps_raise | apply keeps_call
        | apply keeps_state_get | apply keeps_state_has
        | apply keeps_getattr | apply keeps_getitem
        | apply resolver_keeps | apply corpus_infos_keeps
        | apply keeps_bind; [keeps_tac | intros; keeps_tac]
        | apply keeps_try; [keeps_tac | intros; keeps_tac]
        | match goal with
          | |- keeps_session (if ?b then _ else _) => destruct b; keeps_tac
          | |- keeps_session (match ?x with _ => _ end) => destruct x; keeps_tac
          end ].

Ltac confined_tac :=
  repeat (cbv beta zeta;
          first [ apply confined_of_keeps; keeps_tac
                | apply check_confined
                | apply confined_state_set
                | apply confined_bind; [|intros]
                | apply confined_try; [|intros]
                | match goal with
                  | |- confined _ (if ?b then _ else _) => destruct b
                  | |- confined _ (match ?x with _ => _ end) => destruct x
                  end ]).

Ltac true_tac :=
  repeat (cbv beta zeta;
          first [ apply true_of_keeps; keeps_tac
                | apply check_keeps_true
                | apply true_state_set
                | apply true_bind; [|intros]
                | apply true_try; [|intros]
                | match goal with
                  | |- keeps_true _ (if ?b then _ else _) => destruct b
                  | |- keeps_true _ (match ?x with _ => _ end) => destruct x
                  end ]).

Lemma create_confined (n : string) : confined n (create n).
Proof. unfold create_corpus_if_not_exists. confined_tac. Qed.

Lemma create_keeps_true (n : string) : keeps_true n (create n).
Proof. unfold create_corpus_if_not_exists. true_tac. Qed.

Lemma rag_query_confined (n query : string) :
  confined n (rag_query be PROJECT_ID LOCATION n query).
Proof.
  unfold rag_query. apply confined_try; [|intros; confined_tac].
  apply confined_bind; [confined_tac | intros _].
  apply confined_bind; [apply create_confined | intros]. confined_tac.
Qed.

Lemma add_data_confined (n : string) (paths : list string) :
  confined n (add_data be PROJECT_ID LOCATION n paths).
Proof.
  unfold add_data. apply confined_try; [|intros; confined_tac].
  apply confined_bind; [confined_tac | intros _]. cbv zeta.
  destruct (validated_paths (sort_paths paths)); [confined_tac|].
  apply confined_bind; [apply create_confined | intros]. confined_tac.
Qed.

Lemma delete_corpus_confined (n : string) (confirm : bool) :
  confined n (delete_corpus be PROJECT_ID LOCATION n confirm).
Proof. unfold delete_corpus. confined_tac. Qed.

Lemma delete_document_confined (n document_id : string) :
  confined n (delete_document be PROJECT_ID LOCATION n document_id).
Proof. unfold delete_document. confined_tac. Qed.

Lemma get_corpus_info_confined (n : string) :
  confined n (get_corpus_info be PROJECT_ID LOCATION n).
Proof. unfold get_corpus_info. confined_tac. Qed.

Lemma list_corpora_keeps : keeps_session (list_corpora be PROJECT_ID LOCATION).
Proof. unfold list_corpora. keeps_tac. Qed.

Lemma rag_query_keeps_true (n query : string) :
  keeps_true n (rag_query be PROJECT_ID LOCATION n query).
Proof.
  unfold rag_query. apply true_try; [|intros; true_tac].
  apply true_bind; [true_tac | intros _].
  apply true_bind; [apply create_keeps_true | intros]. true_tac.
Qed.

Lemma add_data_keeps_true (n : string) (paths : list string) :
  keeps_true n (add_data be PROJECT_ID LOCATION n paths).
Proof.
  unfold add_data. apply true_try; [|intros; true_tac].
  apply true_bind; [true_tac | intros _]. cbv zeta.
  destruct (validated_paths (sort_paths paths)); [true_tac|].
  apply true_bind; [apply create_keeps_true | intros]. true_tac.
Qed.

Lemma delete_document_keeps_true (n document_id : string) :
  keeps_true n (delete_document be PROJECT_ID LOCATION n document_id).
Proof. unfold delete_document. true_tac. Qed.

Lemma get_corpus_info_keeps_true (n : string) :
  keeps_true n (get_corpus_info be PROJECT_ID LOCATION n).
Proof. unfold get_corpus_info. true_tac. Qed.

End Tools.

Lemma state_key_inj (n m : string) : state_key n = state_key m -> n = m.
Proof. unfold state_key. apply String.app_inj. Qed.

End FrameFacts.

(* ===================================================================== *)
(** * Further theorems *)

Module Extras.
Import Spec Logic LogicFacts UtilsFacts CanonicalFacts AddDataFacts FallbackFacts.
Import ToolFacts Shape Frame SortFacts SearchFacts ConversionFacts FrameFacts.


(** X2.  The validation loop splits its input: the invalid paths are the
    inputs that do not validate, in the order given, each validating input
    gives one validated path, and so no input is lost or counted twice. *)
Theorem sort_paths_partition (paths : list string) :
  invalid_paths (sort_paths paths)
  = List.filter (fun path => negb (validates path)) paths
  /\ List.length (validated_paths (sort_paths paths))
     = List.length (List.filter validates paths)
  /\ (List.length (validated_paths (sort_paths paths))
      + List.length (invalid_paths (sort_paths paths)))%nat
     = List.length paths.
Proof.
  assert (Hi : invalid_paths (sort_paths paths)
               = List.filter (fun path => negb (validates path)) paths)
    by (unfold sort_paths; now rewrite fold_sort_invalid_filter).
  assert (Hv : List.length (validated_paths (sort_paths paths))
               = List.length (List.filter validates paths))
    by (unfold sort_paths; now rewrite fold_sort_validated).
  split; [exact Hi|]. split; [exact Hv|].
  rewrite Hi, Hv. clear Hi Hv.
  induction paths as [|path paths IH]; simpl; [reflexivity|].
  destruct (validates path); simpl; lia.
Qed.

(** X3.  Validation is stable: the validated paths of a run, given as
    input again, are all validated as they are, with nothing invalid and
    nothing to convert. *)
Theorem sort_paths_again (paths : list string) :
  sort_paths (validated_paths (sort_paths paths))
  = {| validated_paths := validated_paths (sort_paths paths);
       invalid_paths := [];
       conversions := [] |}.
Proof.
  unfold sort_paths at 1.
  now rewrite (fold_sort_all_accepted _ _ (sorted_all_accepted paths)).
Qed.

(** X4.  A document id that [re.search] extracts from a path is not
    empty, is made of characters of [[a-zA-Z0-9_-]] only, stands in the
    path right after a ["/d/"], and is not followed there by another such
    character (the match is greedy). *)
Theorem document_id_sound (path id : string) :
  Re.search_d_id path = Some id ->
  id <> ""
  /\ Str.all Re.id_char id = true
  /\ exists before after,
       path = before ++ "/d/" ++ id ++ after
       /\ starts_with_id_char after = false.
Proof.
  induction path as [|x path IH]; [discriminate|].
  rewrite search_eq.
  destruct (String.prefix "/d/" (String x path)) eqn:Ep.
  - destruct (prefix_true _ _ Ep) as (rest & Er). rewrite Er, after_d.
    destruct (fst (Str.span Re.id_char rest)) as [|a found] eqn:Ef.
    + rewrite <- Er. intros H. destruct (IH H) as (Hn & Ha & before & after & -> & Hg).
      repeat split; auto. now exists (String x before), after.
    + intros [= <-]. destruct (found_here rest "" found a Ef) as (after & -> & Ha & Hg).
      split; [discriminate|]. split; [exact Ha|].
      exists "", after. split; [reflexivity | exact Hg].
  - intros H. destruct (IH H) as (Hn & Ha & before & after & -> & Hg).
    repeat split; auto. now exists (String x before), after.
Qed.

Lemma document_id_sound_witness :
  "ABC123" <> ""
  /\ Str.all Re.id_char "ABC123" = true
  /\ exists before after,
       example_doc = before ++ "/d/" ++ "ABC123" ++ after
       /\ starts_with_id_char after = false.
Proof. apply (document_id_sound example_doc "ABC123"). reflexivity. Defined.

(** X5.  A document id is extracted from every path that has a ["/d/"]
    followed by a character of [[a-zA-Z0-9_-]], wherever in the path that
    is. *)
Theorem document_id_found (before after : string) (c : ascii) :
  Re.id_char c = true ->
  exists id, Re.search_d_id (before ++ "/d/" ++ String c after) = Some id.
Proof.
  intros Hc. induction before as [|x before IH].
  - rewrite search_eq.
    change ("" ++ "/d/" ++ String c after) with ("/d/" ++ String c after).
    rewrite prefix_app, after_d. simpl Str.span. rewrite Hc.
    destruct (Str.span Re.id_char after) as [a b]. simpl. eauto.
  - rewrite search_eq.
    match goal with |- context [match ?h with Some id => Some id | None => _ end] =>
      destruct h as [found|] end; [eauto|].
    exact IH.
Qed.

Lemma document_id_found_witness :
  exists id,
    Re.search_d_id ("https://docs.google.com/spreadsheets" ++ "/d/" ++ String "x" "/edit")
    = Some id.
Proof.
  apply (document_id_found "https://docs.google.com/spreadsheets" "/edit" "x").
  reflexivity.
Defined.

(** X6.  The [conversions] dictionary of the validation loop has an entry
    for exactly the input paths that were rewritten (a Docs link with a
    document id that is neither a Drive file link nor a [gs://] URI), and
    the entry is the Drive link built from that id. *)
Theorem conversions_exact (paths : list string) (path : string) :
  Dict.get path (conversions (sort_paths paths))
  = if List.existsb (String.eqb path) paths
    then option_map VStr (converted path)
    else None.
Proof.
  unfold sort_paths. rewrite fold_conversions. simpl.
  destruct (List.existsb (String.eqb path) paths); [|reflexivity].
  now destruct (converted path).
Qed.

Section Generic.
Context {W : Type} (be : Backend W).
Variables PROJECT_ID LOCATION : string.

#[local] Abbreviation init_at := (init be PROJECT_ID LOCATION).
#[local] Abbreviation lookup := (lookup_display_name be PROJECT_ID LOCATION).
#[local] Abbreviation resolve := (get_corpus_resource_name be PROJECT_ID LOCATION).
#[local] Abbreviation check := (check_corpus_exists be PROJECT_ID LOCATION).
#[local] Abbreviation create := (create_corpus_if_not_exists be PROJECT_ID LOCATION).

(** X7.  When [add_data] returns success, some path did validate, the last
    call it made was [rag.import_files], which did not raise, on exactly
    the validated paths and with chunk size 512, overlap 100 and 1000
    requests a minute; the result lists the validated paths, the invalid
    paths and the conversions of the validation loop. *)
Theorem add_data_success (corpus_name : string) (paths : list string)
    (st st' : St W) (d : PyDict) :
  add_data be PROJECT_ID LOCATION corpus_name paths st = (inr d, st') ->
  Dict.get "status" d = Some (VStr "success") ->
  validated_paths (sort_paths paths) <> []
  /\ Dict.get "paths" d = Some (strs (validated_paths (sort_paths paths)))
  /\ Dict.get "invalid_paths" d = Some (strs (invalid_paths (sort_paths paths)))
  /\ Dict.get "conversions" d = Some (VDict (conversions (sort_paths paths)))
  /\ exists earlier resource,
       log st'
       = (earlier
          ++ [event AtTool
                (CImportFiles resource (validated_paths (sort_paths paths)) 512 100 1000)
                None])%list.
Proof.
  unfold add_data, try_except. rewrite bind_run.
  destruct (init_at AtTool st) as [[e|[]] st1]; simpl; [dead|].
  destruct (validated_paths (sort_paths paths)) as [|path0 more] eqn:Ev; simpl; [dead|].
  rewrite bind_run.
  destruct (create corpus_name st1) as [[e|corpus_result] st2]; simpl; [dead|].
  rewrite bind_run. unfold getitem.
  destruct (Dict.get "success" corpus_result) as [success|]; simpl; [|dead].
  destruct (Dict.truthy success); simpl.
  - rewrite bind_run.
    destruct (resolve corpus_name st2) as [[e|resource] st3]; simpl; [dead|].
    rewrite bind_run. unfold call.
    destruct (rag_import_files be resource (path0 :: more) DEFAULT_CHUNK_SIZE
                DEFAULT_CHUNK_OVERLAP DEFAULT_EMBEDDING_REQUESTS_PER_MIN (world st3))
      as [[e|import_result] w4]; simpl; [dead|].
    intros [= <- <-] _. simpl. repeat split; [discriminate|].
    now exists (log st3), resource.
  - rewrite bind_run.
    destruct (Dict.get "message" corpus_result) as [message|]; simpl; dead.
Qed.

(** X8.  When [delete_corpus] returns success, the deletion was confirmed
    and the last call made was [rag.delete_corpus], which did not raise; for
    a canonical [corpus_name] it was called on that very name. *)
Theorem delete_corpus_success (corpus_name : string) (confirm : bool)
    (st st' : St W) (d : PyDict) :
  delete_corpus be PROJECT_ID LOCATION corpus_name confirm st = (inr d, st') ->
  Dict.get "status" d = Some (VStr "success") ->
  confirm = true
  /\ exists earlier resource,
       log st' = (earlier ++ [event AtTool (CDeleteCorpus resource) None])%list
       /\ (canonical corpus_name -> resource = corpus_name).
Proof.
  unfold delete_corpus, try_except.
  destruct confirm; simpl; [|dead].
  rewrite bind_run.
  destruct (init_at AtTool st) as [[e|[]] st1]; simpl; [dead|].
  rewrite bind_run.
  destruct (check corpus_name st1) as [[e|[|]] st2]; simpl; [dead| |dead].
  rewrite bind_run.
  pose proof (fun H => resolver_canonical be PROJECT_ID LOCATION corpus_name st2 H) as Hr.
  destruct (resolve corpus_name st2) as [[e|resource] st3]; simpl; [dead|].
  rewrite bind_run. unfold call.
  destruct (rag_delete_corpus be resource (world st3)) as [[e|[]] w4]; simpl; [dead|].
  rewrite bind_run. unfold state_has. simpl.
  destruct (bool_decide _); simpl; intros [= <- <-] _; simpl;
    (split; [reflexivity|]; exists (log st3), resource; split; [reflexivity|];
     intros Hc; apply canonical_iff in Hc; specialize (Hr Hc); congruence).
Qed.


(** X10.  When the existence check answers [False] (the corpus is not
    listed, or the listing failed), [delete_corpus] with confirmation,
    [delete_document] and [get_corpus_info] each return an error result in
    the very state the check left: none of them goes on to delete, fetch or
    list anything. *)
Theorem absent_corpus_guard (corpus_name document_id : string) (st st1 st2 : St W) :
  init_at AtTool st = (inr tt, st1) ->
  check corpus_name st1 = (inr false, st2) ->
  (exists d, delete_corpus be PROJECT_ID LOCATION corpus_name true st = (inr d, st2)
             /\ Dict.get "status" d = Some (VStr "error"))
  /\ (exists d, delete_document be PROJECT_ID LOCATION corpus_name document_id st
                = (inr d, st2)
                /\ Dict.get "status" d = Some (VStr "error"))
  /\ (exists d, get_corpus_info be PROJECT_ID LOCATION corpus_name st = (inr d, st2)
                /\ Dict.get "status" d = Some (VStr "error")).
Proof.
  intros Hi Hc. repeat split.
  - eexists. unfold delete_corpus, try_except. simpl.
    rewrite bind_run, Hi, bind_run, Hc. simpl. split; reflexivity.
  - eexists. unfold delete_document, try_except.
    rewrite bind_run, Hi, bind_run, Hc. simpl. split; reflexivity.
  - eexists. unfold get_corpus_info, try_except.
    rewrite bind_run, Hi, bind_run, Hc. simpl. split; reflexivity.
Qed.

(** X11.  No tool removes a key from the session store, and no tool
    changes the value of any key other than [corpus_exists_<corpus_name>]
    for the corpus it was called on; [list_corpora] changes none. *)
Theorem session_frame (t : Tool) (st : St W) :
  let st' := snd (run_tool be PROJECT_ID LOCATION t st) in
  (forall key, (forall n, target t = Some n -> key <> state_key n) ->
     session st' !! key = session st !! key)
  /\ (forall key, is_Some (session st !! key) -> is_Some (session st' !! key)).
Proof.
  assert (Hc : forall n, target t = Some n ->
                 confined n (run_tool be PROJECT_ID LOCATION t)).
  { destruct t; simpl; intros n [= <-];
      [ apply rag_query_confined | apply add_data_confined
      | apply delete_corpus_confined | apply delete_document_confined
      | apply get_corpus_info_confined ]. }
  destruct (target t) as [n|] eqn:Et.
  - destruct (Hc n eq_refl st) as [H1 H2]. simpl. split.
    + intros key Hk. apply H1, Hk. reflexivity.
    + intros key Hs. destruct (decide (key = state_key n)) as [->|Hne].
      * now apply H2.
      * now rewrite H1.
  - destruct t; try discriminate. simpl.
    rewrite (list_corpora_keeps be PROJECT_ID LOCATION st). auto.
Qed.

(** X12.  A flag that says [True] stays [True] through every tool call,
    except [delete_corpus] on that very corpus. *)
Theorem true_flag_survives (t : Tool) (n : string) (st : St W) :
  (forall confirm, t <> DeleteCorpus n confirm) ->
  session st !! state_key n = Some true ->
  session (snd (run_tool be PROJECT_ID LOCATION t st)) !! state_key n = Some true.
Proof.
  intros Hnot Ht.
  assert (Hother : forall (A : Type) (m : string) (run : M W A),
            m <> n -> confined m run ->
            session (snd (run st)) !! state_key n = Some true).
  { intros A m run Hne Hc. destruct (Hc st) as [H _]. rewrite H; [exact Ht|].
    intros Hk. apply state_key_inj in Hk. congruence. }
  destruct t as [m q|m paths|m confirm|m doc|m|]; simpl.
  - destruct (decide (m = n)) as [->|Hne];
      [now apply rag_query_keeps_true | apply (Hother _ m); auto using rag_query_confined].
  - destruct (decide (m = n)) as [->|Hne];
      [now apply add_data_keeps_true | apply (Hother _ m); auto using add_data_confined].
  - destruct (decide (m = n)) as [->|Hne];
      [now contradiction (Hnot confirm)
      | apply (Hother _ m); auto using delete_corpus_confined].
  - destruct (decide (m = n)) as [->|Hne];
      [now apply delete_document_keeps_true
      | apply (Hother _ m); auto using delete_document_confined].
  - destruct (decide (m = n)) as [->|Hne];
      [now apply get_corpus_info_keeps_true
      | apply (Hother _ m); auto using get_corpus_info_confined].
  - now rewrite (list_corpora_keeps be PROJECT_ID LOCATION st).
Qed.

(** X13.  Creation is idempotent within a session: after a successful
    [create_corpus_if_not_exists], the same call again answers "already
    exists" with [was_created = False] and leaves the state, log included,
    untouched: it makes no call at all. *)
Theorem create_twice (corpus_name : string) (st st' : St W) (d : PyDict) :
  create corpus_name st = (inr d, st') ->
  Dict.get "success" d = Some (VBool true) ->
  create corpus_name st' = (inr (already_exists corpus_name), st').
Proof.
  intros Hrun Hs.
  pose proof (create_flag be PROJECT_ID LOCATION _ _ _ _ Hrun Hs) as Hflag.
  unfold create_corpus_if_not_exists.
  now rewrite bind_run, (check_cached be PROJECT_ID LOCATION _ _ Hflag).
Qed.

(** X14.  Unless the flag says [True], the existence check goes to the
    backend: the first thing it does is a [vertexai.init].  A flag set to
    [False] by [delete_corpus] is thus checked again remotely, and can be
    corrected. *)
Theorem check_goes_remote (corpus_name : string) (st : St W) :
  session st !! state_key corpus_name <> Some true ->
  exists raised evs,
    added st (snd (check corpus_name st))
      (event AtExists (CInit PROJECT_ID LOCATION) raised :: evs).
Proof.
  intros Hflag. unfold check_corpus_exists. rewrite bind_run. unfold state_get.
  assert (Hd : default false (session st !! state_key corpus_name) = false)
    by (destruct (session st !! state_key corpus_name) as [[|]|] eqn:E; simpl; congruence).
  simpl. rewrite Hd. unfold try_except. rewrite bind_run.
  unfold init at 1, call at 1.
  destruct (vertexai_init be PROJECT_ID LOCATION (world st)) as [[e|[]] w1]; simpl.
  - now exists (Some e), [].
  - match goal with |- context [mbind ?k ?m ?s] =>
      assert (Hrest : emits (fun _ => True) (mbind k m));
      [|destruct (Hrest s) as (evs & Hadd & _); destruct (mbind k m s) as [[e|b] st2]]
    end.
    { apply emits_bind; [eapply emits_impl; [|apply resolver_emits]; auto | intros].
      apply emits_bind; [now apply emits_call | intros]. apply exists_loop_emits. }
    all: exists None, evs; unfold added in *; simpl in *;
      rewrite Hadd; simpl; now rewrite <- app_assoc.
Qed.

(** X15.  The existence check fails closed: when its own [vertexai.init]
    or its own [rag.list_corpora] raises, it answers [False] (it does not
    raise) and leaves the session store as it was. *)
Theorem check_fails_closed (corpus_name : string) (st : St W) :
  exists evs,
    added st (snd (check corpus_name st)) evs
    /\ forall ev e,
         In ev evs -> ev_site ev = AtExists -> ev_raised ev = Some e ->
         fst (check corpus_name st) = inr false
         /\ session (snd (check corpus_name st)) = session st.
Proof.
  destruct (check corpus_name st) as [r st'] eqn:Hrun. simpl. revert Hrun.
  unfold check_corpus_exists. rewrite bind_run. unfold state_get. simpl.
  destruct (default false (session st !! state_key corpus_name)).
  { intros [= <- <-]. exists []. split; [apply added_nil | intros ev e []]. }
  unfold try_except. rewrite bind_run. unfold init, call at 1.
  destruct (vertexai_init be PROJECT_ID LOCATION (world st)) as [[e0|[]] w1]; simpl.
  { intros [= <- <-]. eexists. split; [reflexivity | intros; split; reflexivity]. }
  rewrite bind_run.
  match goal with |- context [resolve corpus_name ?s] => set (st1 := s) end.
  destruct (resolver_sites be PROJECT_ID LOCATION corpus_name st1) as (evs2 & A2 & F2).
  pose proof (resolver_keeps be PROJECT_ID LOCATION corpus_name st1) as K2.
  destruct (resolve corpus_name st1) as [[e|resource] st2]; simpl in A2, K2 |- *.
  { intros [= <- <-]. exists (event AtExists (CInit PROJECT_ID LOCATION) None :: evs2).
    split; [unfold added in *; rewrite A2; simpl; now rewrite <- app_assoc|].
    intros. split; [reflexivity | exact K2]. }
  rewrite bind_run. unfold call at 1.
  destruct (rag_list_corpora be (world st2)) as [[e|corpora] w3]; simpl.
  { intros [= <- <-].
    eexists (event AtExists (CInit PROJECT_ID LOCATION) None :: evs2 ++ [_])%list.
    split; [unfold added in *; simpl; rewrite A2; simpl;
            now rewrite <- !app_assoc|].
    intros. split; [reflexivity | exact K2]. }
  match goal with |- context [exists_loop corpus_name resource corpora ?s] =>
    pose proof (exists_loop_silent corpus_name resource corpora s) as A4;
    destruct (exists_loop corpus_name resource corpora s) as [[e|b] st4] end;
    simpl in A4 |- *.
  all: intros [= <- <-].
  all: exists (event AtExists (CInit PROJECT_ID LOCATION) None
               :: evs2 ++ [event AtExists CListCorpora None])%list.
  all: split; [unfold added in *; rewrite A4; simpl; rewrite A2; simpl;
               now rewrite <- !app_assoc|].
  all: intros ev e' [<-|Hin] Hsite Hraised; [discriminate|].
  all: apply in_app_or in Hin as [Hin|[<-|[]]]; [|discriminate].
  all: rewrite List.Forall_forall in F2; rewrite (F2 ev Hin) in Hsite; discriminate.
Qed.

(** X16.  A [True] answer of the existence check that does not come from
    the flag comes from a listing: the last call logged is the check's own
    [rag.list_corpora], and it did not raise. *)
Theorem check_true_is_backed (corpus_name : string) (st st' : St W) :
  check corpus_name st = (inr true, st') ->
  session st !! state_key corpus_name <> Some true ->
  exists earlier, log st' = (earlier ++ [event AtExists CListCorpora None])%list.
Proof.
  intros Hrun Hflag. revert Hrun.
  unfold check_corpus_exists. rewrite bind_run. unfold state_get.
  assert (Hd : default false (session st !! state_key corpus_name) = false)
    by (destruct (session st !! state_key corpus_name) as [[|]|] eqn:E; simpl; congruence).
  simpl. rewrite Hd. unfold try_except. rewrite bind_run.
  destruct (init_at AtExists st) as [[e0|[]] st1]; simpl; [discriminate|].
  rewrite bind_run.
  destruct (resolve corpus_name st1) as [[e|resource] st2]; simpl; [discriminate|].
  rewrite bind_run. unfold call at 1.
  destruct (rag_list_corpora be (world st2)) as [[e|corpora] w3]; simpl; [discriminate|].
  match goal with |- context [exists_loop corpus_name resource corpora ?s] =>
    pose proof (exists_loop_silent corpus_name resource corpora s) as A4;
    destruct (exists_loop corpus_name resource corpora s) as [[e|b] st4] end;
    simpl in A4 |- *; [discriminate|].
  intros [= -> <-]. rewrite A4. now exists (log st2).
Qed.

Lemma corpus_infos_run (corpora : list RagCorpus) (st : St W) :
  corpus_infos corpora st
  = (match corpus_entries corpora with
     | Some entries => inr entries
     | None => inl "'RagCorpus' object has no attribute 'display_name'"
     end, st).
Proof.
  induction corpora as [|corpus rest IH]; simpl; [reflexivity|].
  rewrite bind_run. destruct (rc_display_name corpus) as [d|]; simpl; [|reflexivity].
  rewrite bind_run, IH. now destruct (corpus_entries rest).
Qed.

Lemma corpus_entries_length (corpora : list RagCorpus) (entries : list PyVal) :
  corpus_entries corpora = Some entries -> List.length entries = List.length corpora.
Proof.
  revert entries. induction corpora as [|corpus rest IH]; simpl; intros entries.
  - now intros [= <-].
  - destruct (rc_display_name corpus); [|discriminate].
    destruct (corpus_entries rest) as [es|]; [|discriminate].
    intros [= <-]. simpl. now rewrite (IH es).
Qed.

(** X17.  When the client initialises and the listing comes back,
    [list_corpora] returns one entry per corpus, in the order of the
    listing, with [count] their number, provided every corpus has a
    display name; one corpus without a display name turns the whole call
    into an error result ([display_name] is read without a [hasattr]
    test).  Either way exactly two calls are made and the session store
    is not touched. *)
Theorem list_corpora_listing (st : St W) (w1 w2 : W) (corpora : list RagCorpus) :
  vertexai_init be PROJECT_ID LOCATION (world st) = (inr tt, w1) ->
  rag_list_corpora be w1 = (inr corpora, w2) ->
  list_corpora be PROJECT_ID LOCATION st
  = (inr match corpus_entries corpora with
         | Some entries =>
             [("status", VStr "success");
              ("message", VStr ("Found " ++ Str.of_Z (Z.of_nat (List.length corpora))
                                ++ " corpus/corpora"));
              ("corpora", VList entries);
              ("count", VInt (Z.of_nat (List.length corpora)));
              ("note", VStr "Use the 'resource_name' field (not 'display_name') when referencing corpora in other tools")]
         | None =>
             [("status", VStr "error");
              ("message", VStr "Error listing corpora: 'RagCorpus' object has no attribute 'display_name'")]
         end,
     {| world := w2;
        session := session st;
        log := (log st ++ [event AtTool (CInit PROJECT_ID LOCATION) None;
                           event AtTool CListCorpora None])%list |})
  /\ forall entries,
       corpus_entries corpora = Some entries ->
       List.length entries = List.length corpora.
Proof.
  intros Hi Hl. split; [|apply corpus_entries_length].
  unfold list_corpora, try_except. rewrite bind_run. unfold init, call at 1.
  rewrite Hi. simpl. rewrite bind_run. unfold call. simpl. rewrite Hl. simpl.
  rewrite bind_run, corpus_infos_run.
  destruct (corpus_entries corpora) as [entries|] eqn:E; simpl.
  - rewrite (corpus_entries_length _ _ E), <- app_assoc. reflexivity.
  - now rewrite <- app_assoc.
Qed.

(** X18.  [get_corpus_info] on a canonical corpus name that the session
    knows to exist makes three calls: [vertexai.init], [rag.get_corpus] and
    [rag.list_files].  Whatever the fetch of the details does, raise
    included, the outcome is decided by the listing: with the files listed
    the result is success, [file_count] their number, one entry per file
    in the order listed, and the display name the fetched one or, failing
    that, the corpus name; with the listing raising it is an error whose
    message holds the text.  The session store is not touched. *)
Theorem get_corpus_info_cached (corpus_name : string) (st : St W) (w1 w2 w3 : W)
    (fetched : Exc + RagCorpus) (listed : Exc + list RagFile) :
  session st !! state_key corpus_name = Some true ->
  Re.fullmatch CANONICAL corpus_name = true ->
  vertexai_init be PROJECT_ID LOCATION (world st) = (inr tt, w1) ->
  rag_get_corpus be corpus_name w1 = (fetched, w2) ->
  rag_list_files be corpus_name w2 = (listed, w3) ->
  get_corpus_info be PROJECT_ID LOCATION corpus_name st
  = (inr match listed with
         | inr files =>
             [("status", VStr "success");
              ("message", VStr ("Successfully retrieved information for corpus '"
                                ++ corpus_name ++ "'"));
              ("corpus_name", VStr corpus_name);
              ("corpus_resource_name", VStr corpus_name);
              ("display_name", VStr (reported_display_name corpus_name fetched));
              ("stats", VDict [("file_count", VInt (Z.of_nat (List.length files)))]);
              ("files", VList (List.map file_info files))]
         | inl files_error =>
             [("status", VStr "error");
              ("message", VStr ("Error retrieving files for corpus '" ++ corpus_name
                                ++ "': " ++ files_error));
              ("corpus_name", VStr corpus_name);
              ("corpus_resource_name", VStr corpus_name)]
         end,
     {| world := w3;
        session := session st;
        log := (log st
                ++ [event AtTool (CInit PROJECT_ID LOCATION) None;
                    event AtDetails (CGetCorpus corpus_name)
                      match fetched with inl e => Some e | inr _ => None end;
                    event AtTool (CListFiles corpus_name)
                      match listed with inl e => Some e | inr _ => None end])%list |}).
Proof.
  intros Hflag Hcan Hi Hg Hl.
  unfold get_corpus_info, try_except. rewrite bind_run. unfold init, call at 1.
  rewrite Hi. simpl. rewrite bind_run, check_cached by exact Hflag. simpl.
  rewrite bind_run, resolver_canonical by exact Hcan. simpl.
  unfold call. rewrite !bind_run. simpl. rewrite Hg.
  destruct fetched as [e|corpus]; simpl; rewrite ?bind_run; simpl; rewrite Hl;
    destruct listed as [e'|files]; simpl; rewrite <- !app_assoc; simpl;
    rewrite ?length_map; try reflexivity.
  all: destruct (rc_display_name corpus) as [d|]; simpl; try reflexivity;
    now destruct (String.eqb d "").
Qed.

(** X19.  [rag_query] on a canonical corpus name that the session knows
    to exist makes two calls: [vertexai.init], and [rag.retrieval_query]
    on that name with [top_k = 3] and the distance threshold 0.5.  The
    results are the contexts of the response in the order the service
    gave them, a missing attribute read as [""] (score: [0.0]); with no
    context the status is [warning], otherwise [success] with
    [results_count] their number.  The session store is not touched. *)
Theorem rag_query_cached (corpus_name query : string) (st : St W) (w1 w2 : W)
    (response : RetrievalResponse) :
  session st !! state_key corpus_name = Some true ->
  Re.fullmatch CANONICAL corpus_name = true ->
  vertexai_init be PROJECT_ID LOCATION (world st) = (inr tt, w1) ->
  rag_retrieval_query be corpus_name query 3 (VFloat 0x3FE0000000000000) w1
  = (inr response, w2) ->
  rag_query be PROJECT_ID LOCATION corpus_name query st
  = (inr match results_of response with
         | [] =>
             [("status", VStr "warning");
              ("message", VStr ("No results found in corpus '" ++ corpus_name
                                ++ "' for query: '" ++ query ++ "'"));
              ("query", VStr query);
              ("results", VList []);
              ("results_count", VInt 0)]
         | _ =>
             [("status", VStr "success");
              ("message", VStr ("Successfully queried corpus '" ++ corpus_name ++ "'"));
              ("query", VStr query);
              ("results", VList (results_of response));
              ("results_count", VInt (Z.of_nat (List.length (results_of response))))]
         end,
     {| world := w2;
        session := session st;
        log := (log st
                ++ [event AtTool (CInit PROJECT_ID LOCATION) None;
                    event AtTool
                      (CRetrievalQuery corpus_name query 3 (VFloat 0x3FE0000000000000))
                      None])%list |}).
Proof.
  intros Hflag Hcan Hi Hq.
  unfold rag_query, try_except. rewrite bind_run. unfold init, call at 1.
  rewrite Hi. simpl. rewrite bind_run.
  unfold create_corpus_if_not_exists. rewrite bind_run, check_cached by exact Hflag.
  unfold getitem. simpl. repeat (rewrite bind_run; simpl).
  rewrite resolver_canonical by exact Hcan. simpl.
  unfold call, DEFAULT_TOP_K, DEFAULT_DISTANCE_THRESHOLD.
  repeat (rewrite bind_run; simpl). rewrite Hq. simpl.
  rewrite <- app_assoc. unfold results_of.
  destruct (resp_contexts response) as [[|c contexts]|]; reflexivity.
Qed.


Lemma find_first (n : string) (corpora : list RagCorpus) :
  match find_display_name n corpora with
  | Some name =>
      exists before corpus after,
        corpora = (before ++ corpus :: after)%list
        /\ rc_display_name corpus = Some n
        /\ rc_name corpus = name
        /\ Forall (fun c => rc_display_name c <> Some n) before
  | None => Forall (fun c => rc_display_name c <> Some n) corpora
  end.
Proof.
  induction corpora as [|corpus rest IH]; simpl; [constructor|].
  destruct (rc_display_name corpus) as [d|] eqn:Ed.
  - destruct (String.eqb_spec d n) as [->|Hne].
    + exists [], corpus, rest. repeat split; auto.
    + destruct (find_display_name n rest) as [name|].
      * destruct IH as (before & c & after & -> & Hd & Hn & Hb).
        exists (corpus :: before), c, after. repeat split; auto.
        constructor; [congruence | exact Hb].
      * constructor; [congruence | exact IH].
  - destruct (find_display_name n rest) as [name|].
    + destruct IH as (before & c & after & -> & Hd & Hn & Hb).
      exists (corpus :: before), c, after. repeat split; auto.
      constructor; [congruence | exact Hb].
    + constructor; [congruence | exact IH].
Qed.

(** X21.  For an input that is not canonical, with the lookup going
    through, the resolver returns the name of the first corpus of the
    listing whose display name equals the input (the first match wins, a
    corpus without a display name is skipped), and the fallback path only
    when no corpus of the listing has that display name. *)
Theorem resolver_by_display_name (corpus_name : string) (st : St W) (w1 w2 : W)
    (corpora : list RagCorpus) :
  Re.fullmatch CANONICAL corpus_name = false ->
  vertexai_init be PROJECT_ID LOCATION (world st) = (inr tt, w1) ->
  rag_list_corpora be w1 = (inr corpora, w2) ->
  match fst (resolve corpus_name st) with
  | inl _ => False
  | inr resolved =>
      (exists before corpus after,
         corpora = (before ++ corpus :: after)%list
         /\ rc_display_name corpus = Some corpus_name
         /\ resolved = rc_name corpus
         /\ Forall (fun c => rc_display_name c <> Some corpus_name) before)
      \/ (Forall (fun c => rc_display_name c <> Some corpus_name) corpora
          /\ resolved
             = canonical_path PROJECT_ID LOCATION (fallback_corpus_id corpus_name))
  end.
Proof.
  intros Hc Hi Hl.
  unfold get_corpus_resource_name. rewrite Hc, bind_run.
  unfold lookup_display_name, try_except. rewrite bind_run.
  unfold init, call at 1. rewrite Hi. simpl. rewrite bind_run.
  unfold call. simpl. rewrite Hl. simpl.
  pose proof (find_first corpus_name corpora) as Hf.
  destruct (find_display_name corpus_name corpora) as [name|]; simpl.
  - left. destruct Hf as (before & corpus & after & H1 & H2 & H3 & H4).
    exists before, corpus, after. auto.
  - right. auto.
Qed.

(** X22.  A lookup that fails does not stop the resolver: when
    [vertexai.init] or [rag.list_corpora] raises, the resolver returns the
    fallback path for a non-canonical input, and the session store is as
    it was. *)
Theorem resolver_after_failed_lookup (corpus_name : string) (st : St W) :
  Re.fullmatch CANONICAL corpus_name = false ->
  (exists e w, vertexai_init be PROJECT_ID LOCATION (world st) = (inl e, w))
  \/ (exists w1 e w2,
        vertexai_init be PROJECT_ID LOCATION (world st) = (inr tt, w1)
        /\ rag_list_corpora be w1 = (inl e, w2)) ->
  fst (resolve corpus_name st)
  = inr (canonical_path PROJECT_ID LOCATION (fallback_corpus_id corpus_name))
  /\ session (snd (resolve corpus_name st)) = session st.
Proof.
  intros Hc Hfail. split; [|apply resolver_keeps].
  unfold get_corpus_resource_name. rewrite Hc, bind_run.
  unfold lookup_display_name, try_except. rewrite bind_run.
  unfold init, call at 1.
  destruct Hfail as [(e & w & Hi)|(w1 & e & w2 & Hi & Hl)]; rewrite Hi; simpl.
  - reflexivity.
  - rewrite bind_run. unfold call. simpl. now rewrite Hl.
Qed.

(** X25.  When [create_corpus_if_not_exists] reports [was_created = True],
    the corpus was not known to the session before, and the last call made
    is [rag.create_corpus], which did not raise, with the corpus name
    cleaned to [[a-zA-Z0-9_-]] as display name and the embedding model of
    the configuration; the flag is [True] afterwards. *)
Theorem create_was_created (corpus_name : string) (st st' : St W) (d : PyDict) :
  create corpus_name st = (inr d, st') ->
  Dict.get "was_created" d = Some (VBool true) ->
  session st !! state_key corpus_name <> Some true
  /\ session st' !! state_key corpus_name = Some true
  /\ exists earlier,
       log st'
       = (earlier
          ++ [event AtCreate
                (CCreateCorpus (Re.sub_non_id corpus_name)
                   "publishers/google/models/text-embedding-005")
                None])%list.
Proof.
  unfold create_corpus_if_not_exists. rewrite bind_run.
  pose proof (check_cached be PROJECT_ID LOCATION corpus_name st) as Hcached.
  destruct (check corpus_name st) as [[e|[|]] st1]; simpl; [dead|dead|].
  unfold try_except. rewrite bind_run.
  destruct (init_at AtCreate st1) as [[e|[]] st2]; simpl; [dead|].
  rewrite bind_run. unfold call.
  destruct (rag_create_corpus be (Re.sub_non_id corpus_name) DEFAULT_EMBEDDING_MODEL
              (world st2)) as [[e|rag_corpus] w3]; simpl; [dead|].
  destruct (rc_display_name rag_corpus) as [dn|]; simpl; [|dead].
  intros [= <- <-] _. simpl. split; [|split].
  - intros Ht. specialize (Hcached Ht). discriminate.
  - apply lookup_insert_eq.
  - now exists (log st2).
Qed.

End Generic.

Lemma canonical_newline (P L ID : string) :
  canonical_path P L ID ++ String "010"%char ""
  = canonical_path P L (ID ++ String "010"%char "").
Proof. unfold canonical_path. now rewrite !StrFacts.append_assoc. Qed.

(** X24.  The pattern of the resolver accepts exactly the strings
    [projects/{P}/locations/{L}/ragCorpora/{ID}] with [P], [L] and [ID] not
    empty and free of ['/']: a path with an empty part, with a further
    segment or with a trailing slash is not canonical.  Since [$] also
    matches before a final newline, and [[^/]] matches a newline as well, a
    canonical path with a newline after it is canonical too. *)
Theorem canonical_pattern_exact (s : string) :
  (Re.fullmatch CANONICAL s = true <-> canonical s)
  /\ (canonical s -> last_char s <> Some "/"%char)
  /\ (canonical s -> Re.fullmatch CANONICAL (s ++ String "010"%char "") = true).
Proof.
  split; [apply canonical_iff|]. split; [apply canonical_last_char|].
  intros (P & L & ID & HP & HL & HID & ->).
  rewrite canonical_newline. apply canonical_iff.
  exists P, L, (ID ++ String "010"%char ""). repeat split; try apply HP; try apply HL.
  - destruct HID as [Hn _]. destruct ID; [contradiction | discriminate].
  - destruct HID as [_ Ha]. now rewrite StrFacts.all_append, Ha.
Qed.

Lemma contains_slash_none (s : string) :
  Str.all Re.not_slash s = true -> Str.contains "/" s = false.
Proof.
  induction s as [|c s IH]; [reflexivity|].
  intros H. apply andb_prop in H as [Hc Hs].
  rewrite contains_eq, (IH Hs), orb_false_r.
  replace (String.prefix "/" (String c s))
    with (if ascii_dec "/"%char c then String.prefix "" s else false) by reflexivity.
  destruct (ascii_dec "/"%char c) as [<-|]; [discriminate | reflexivity].
Qed.

(** X23.  The identifier of the fallback is stable: cleaning a cleaned
    string changes nothing, a string of characters of [[a-zA-Z0-9_-]] is
    left as it is, and the fallback identifier of a fallback identifier
    is that identifier. *)
Theorem fallback_id_stable (corpus_name : string) :
  Re.sub_non_id (Re.sub_non_id corpus_name) = Re.sub_non_id corpus_name
  /\ (Str.all Re.id_char corpus_name = true -> Re.sub_non_id corpus_name = corpus_name)
  /\ fallback_corpus_id (fallback_corpus_id corpus_name) = fallback_corpus_id corpus_name.
Proof.
  assert (Hclean : forall s, Str.all Re.id_char s = true -> Re.sub_non_id s = s).
  { unfold Re.sub_non_id. induction s as [|c s IH]; simpl; [reflexivity|].
    intros [Hc Hs]%andb_prop. now rewrite Hc, IH. }
  assert (Hidem : forall s, Re.sub_non_id (Re.sub_non_id s) = Re.sub_non_id s)
    by (intros s; apply Hclean, ReFacts.sub_non_id_chars).
  split; [apply Hidem|]. split; [apply Hclean|].
  unfold fallback_corpus_id at 1. unfold last_segment at 1.
  rewrite contains_slash_none.
  - unfold fallback_corpus_id. apply Hidem.
  - unfold fallback_corpus_id.
    eapply StrFacts.all_impl; [apply ReFacts.id_char_not_slash|].
    apply ReFacts.sub_non_id_chars.
Qed.

(** *** The theorems above at work on the in-memory services *)

Lemma add_data_success_witness :
  exists earlier resource,
    log (snd (add_data Service.memory DEFAULT_PROJECT_ID DEFAULT_LOCATION "docs" example_paths
                (Service.fresh [Service.docs])))
    = (earlier
       ++ [event AtTool
             (CImportFiles resource [example_drive; "gs://bucket/x"] 512 100 1000)
             None])%list.
Proof.
  apply (add_data_success Service.memory DEFAULT_PROJECT_ID DEFAULT_LOCATION "docs" example_paths
           (Service.fresh [Service.docs]) _
           [("status", VStr "success");
            ("message", VStr "Successfully added 2 file(s) to corpus 'docs' (Converted Google Docs URLs to Drive format)");
            ("corpus_name", VStr "docs");
            ("corpus_created", VBool false);
            ("files_added", VInt 2);
            ("paths", strs [example_drive; "gs://bucket/x"]);
            ("invalid_paths", strs ["not-a-path"]);
            ("conversions", VDict [(example_doc, VStr example_drive)])]).
  - vm_compute. reflexivity.
  - reflexivity.
Defined.

Lemma delete_corpus_success_witness :
  true = true
  /\ exists earlier resource,
       log (snd (delete_corpus Service.memory DEFAULT_PROJECT_ID DEFAULT_LOCATION "docs" true
                   (Service.fresh [Service.docs])))
       = (earlier ++ [event AtTool (CDeleteCorpus resource) None])%list
       /\ (canonical "docs" -> resource = "docs").
Proof.
  apply (delete_corpus_success Service.memory DEFAULT_PROJECT_ID DEFAULT_LOCATION "docs" true
           (Service.fresh [Service.docs]) _
           [("status", VStr "success");
            ("message", VStr "Successfully deleted corpus 'docs'");
            ("corpus_name", VStr "docs")]).
  - vm_compute. reflexivity.
  - reflexivity.
Defined.


Lemma absent_corpus_guard_witness :
  let st := Service.fresh [Service.docs] in
  let st2 := snd (check_corpus_exists Service.memory DEFAULT_PROJECT_ID DEFAULT_LOCATION "ghost"
                    (snd (init Service.memory DEFAULT_PROJECT_ID DEFAULT_LOCATION AtTool st))) in
  (exists d, delete_corpus Service.memory DEFAULT_PROJECT_ID DEFAULT_LOCATION "ghost" true st = (inr d, st2)
             /\ Dict.get "status" d = Some (VStr "error"))
  /\ (exists d, delete_document Service.memory DEFAULT_PROJECT_ID DEFAULT_LOCATION "ghost" "42" st = (inr d, st2)
                /\ Dict.get "status" d = Some (VStr "error"))
  /\ (exists d, get_corpus_info Service.memory DEFAULT_PROJECT_ID DEFAULT_LOCATION "ghost" st = (inr d, st2)
                /\ Dict.get "status" d = Some (VStr "error")).
Proof.
  intros st st2.
  apply (absent_corpus_guard Service.memory DEFAULT_PROJECT_ID DEFAULT_LOCATION "ghost" "42" st
           (snd (init Service.memory DEFAULT_PROJECT_ID DEFAULT_LOCATION AtTool st)) st2).
  - vm_compute. reflexivity.
  - vm_compute. reflexivity.
Defined.

Lemma true_flag_survives_witness :
  session (snd (run_tool Stocked.shelf DEFAULT_PROJECT_ID DEFAULT_LOCATION (RagQuery Stocked.docs7 "holidays") Stocked.warm))
    !! state_key Stocked.docs7 = Some true.
Proof.
  apply (true_flag_survives Stocked.shelf DEFAULT_PROJECT_ID DEFAULT_LOCATION (RagQuery Stocked.docs7 "holidays") Stocked.docs7
           Stocked.warm).
  - intros confirm. discriminate.
  - vm_compute. reflexivity.
Defined.

Lemma create_twice_witness :
  let st' := snd (create_corpus_if_not_exists Service.memory DEFAULT_PROJECT_ID DEFAULT_LOCATION "notes"
                    (Service.fresh [])) in
  create_corpus_if_not_exists Service.memory DEFAULT_PROJECT_ID DEFAULT_LOCATION "notes" st'
  = (inr (already_exists "notes"), st').
Proof.
  intros st'.
  apply (create_twice Service.memory DEFAULT_PROJECT_ID DEFAULT_LOCATION "notes" (Service.fresh []) st'
           (created "notes" "projects/demo/locations/us-central1/ragCorpora/0" "notes")).
  - vm_compute. reflexivity.
  - reflexivity.
Defined.

Lemma check_goes_remote_witness :
  exists raised evs,
    added (Service.fresh [])
      (snd (check_corpus_exists Service.memory DEFAULT_PROJECT_ID DEFAULT_LOCATION "ghost" (Service.fresh [])))
      (event AtExists (CInit DEFAULT_PROJECT_ID DEFAULT_LOCATION) raised :: evs).
Proof.
  apply (check_goes_remote Service.memory DEFAULT_PROJECT_ID DEFAULT_LOCATION "ghost" (Service.fresh [])).
  vm_compute. discriminate.
Defined.

Lemma check_true_is_backed_witness :
  exists earlier,
    log (snd (check_corpus_exists Service.memory DEFAULT_PROJECT_ID DEFAULT_LOCATION "docs"
                (Service.fresh [Service.docs])))
    = (earlier ++ [event AtExists CListCorpora None])%list.
Proof.
  apply (check_true_is_backed Service.memory DEFAULT_PROJECT_ID DEFAULT_LOCATION "docs" (Service.fresh [Service.docs])).
  - vm_compute. reflexivity.
  - vm_compute. discriminate.
Defined.

Lemma list_corpora_listing_witness :
  fst (list_corpora Service.memory DEFAULT_PROJECT_ID DEFAULT_LOCATION (Service.fresh [Service.docs]))
  = inr [("status", VStr "success");
         ("message", VStr "Found 1 corpus/corpora");
         ("corpora", VList [corpus_entry Service.docs "docs"]);
         ("count", VInt 1);
         ("note", VStr "Use the 'resource_name' field (not 'display_name') when referencing corpora in other tools")].
Proof.
  destruct (list_corpora_listing Service.memory DEFAULT_PROJECT_ID DEFAULT_LOCATION (Service.fresh [Service.docs])
              [Service.docs] [Service.docs] [Service.docs] eq_refl eq_refl) as [H _].
  rewrite H. reflexivity.
Defined.

Lemma get_corpus_info_cached_witness :
  fst (get_corpus_info Stocked.shelf DEFAULT_PROJECT_ID DEFAULT_LOCATION Stocked.docs7 Stocked.warm)
  = inr [("status", VStr "success");
         ("message", VStr "Successfully retrieved information for corpus 'projects/demo/locations/us-central1/ragCorpora/7'");
         ("corpus_name", VStr Stocked.docs7);
         ("corpus_resource_name", VStr Stocked.docs7);
         ("display_name", VStr Stocked.docs7);
         ("stats", VDict [("file_count", VInt 1)]);
         ("files", VList [file_info Stocked.handbook])].
Proof.
  rewrite (get_corpus_info_cached Stocked.shelf DEFAULT_PROJECT_ID DEFAULT_LOCATION Stocked.docs7 Stocked.warm
             [Service.docs] [Service.docs] [Service.docs]
             (inl "403 details not readable") (inr [Stocked.handbook])).
  - reflexivity.
  - vm_compute. reflexivity.
  - reflexivity.
  - reflexivity.
  - reflexivity.
  - reflexivity.
Defined.

Lemma rag_query_cached_witness :
  Dict.get "results"
    match fst (rag_query Stocked.shelf DEFAULT_PROJECT_ID DEFAULT_LOCATION Stocked.docs7 "holidays" Stocked.warm) with
    | inr d => d
    | inl _ => []
    end
  = Some (VList [context_dict (Stocked.passage "first" 1);
                 context_dict (Stocked.passage "second" 2)]).
Proof.
  rewrite (rag_query_cached Stocked.shelf DEFAULT_PROJECT_ID DEFAULT_LOCATION Stocked.docs7 "holidays" Stocked.warm
             [Service.docs] [Service.docs]
             {| resp_contexts := Some [Stocked.passage "first" 1;
                                       Stocked.passage "second" 2] |}).
  - reflexivity.
  - vm_compute. reflexivity.
  - reflexivity.
  - reflexivity.
  - reflexivity.
Defined.


Lemma resolver_by_display_name_witness :
  match fst (get_corpus_resource_name Service.memory DEFAULT_PROJECT_ID DEFAULT_LOCATION "docs"
               (Service.fresh [Service.docs])) with
  | inl _ => False
  | inr resolved =>
      (exists before corpus after,
         [Service.docs] = (before ++ corpus :: after)%list
         /\ rc_display_name corpus = Some "docs"
         /\ resolved = rc_name corpus
         /\ Forall (fun c => rc_display_name c <> Some "docs") before)
      \/ (Forall (fun c => rc_display_name c <> Some "docs") [Service.docs]
          /\ resolved = canonical_path DEFAULT_PROJECT_ID DEFAULT_LOCATION (fallback_corpus_id "docs"))
  end.
Proof.
  apply (resolver_by_display_name Service.memory DEFAULT_PROJECT_ID DEFAULT_LOCATION "docs"
           (Service.fresh [Service.docs]) [Service.docs] [Service.docs] [Service.docs]);
    reflexivity.
Defined.

Lemma resolver_after_failed_lookup_witness :
  fst (get_corpus_resource_name Service.no_listing DEFAULT_PROJECT_ID DEFAULT_LOCATION "team/my notes!"
         (Service.fresh []))
  = inr (canonical_path DEFAULT_PROJECT_ID DEFAULT_LOCATION (fallback_corpus_id "team/my notes!"))
  /\ session (snd (get_corpus_resource_name Service.no_listing DEFAULT_PROJECT_ID DEFAULT_LOCATION "team/my notes!"
                     (Service.fresh [])))
     = session (Service.fresh [] : St (list RagCorpus)).
Proof.
  apply (resolver_after_failed_lookup Service.no_listing DEFAULT_PROJECT_ID DEFAULT_LOCATION "team/my notes!"
           (Service.fresh [])).
  - reflexivity.
  - right. exists [], "503 listing unavailable", []. split; reflexivity.
Defined.

Lemma create_was_created_witness :
  exists earlier,
    log (snd (create_corpus_if_not_exists Service.memory DEFAULT_PROJECT_ID
                DEFAULT_LOCATION "my notes" (Service.fresh [])))
    = (earlier
       ++ [event AtCreate
             (CCreateCorpus "my_notes" "publishers/google/models/text-embedding-005")
             None])%list.
Proof.
  apply (create_was_created Service.memory DEFAULT_PROJECT_ID DEFAULT_LOCATION
           "my notes" (Service.fresh []) _
           (created "my notes" "projects/demo/locations/us-central1/ragCorpora/0"
              "my_notes")).
  - vm_compute. reflexivity.
  - reflexivity.
Defined.

End Extras.
